(** * Ambari: the [retry] decorator and [get_port]

    Shallow embedding of

    - [resource_management/libraries/functions/decorator.py] ([retry]), and
    - [stacks/HDP/2.0.6/hooks/before-ANY/scripts/params.py] ([get_port]),

    together with the properties their specification states.  Python
    integers are unbounded, so they are [Z]; byte strings are [string].
    The delays of [retry] may be any Python number: they are typed by a
    class, with Python's [int] and [fractions.Fraction] as instances. *)

From Stdlib Require Import String Ascii DecimalString ZArith QArith Bool List Lia.
From Equations Require Import Equations.
Import ListNotations.

Open Scope Z_scope.

(** ** Python values shared by both source files *)

Module Py.

(** An exception instance: the method resolution order of its class (the
    class itself first, then its ancestors) and its message. *)
Record exn : Type := mkExn {
  exn_mro : list string;
  exn_message : string
}.

(** [isinstance(err, cls)]: [cls] occurs in the MRO of [type(err)].  This
    is the test an [except cls, err:] clause makes. *)
Definition isinstance (err : exn) (cls : string) : bool :=
  existsb (String.eqb cls) (exn_mro err).

(** [str(err)]. *)
Definition str (err : exn) : string := exn_message err.

(** A call either returns a value or raises. *)
Inductive outcome (A : Type) : Type :=
| Return (v : A)
| Raise (err : exn).
Arguments Return {A} v.
Arguments Raise {A} err.

(** ["%d" % z] on an integer. *)
Definition fmt_d (z : Z) : string := NilZero.string_of_int (Z.to_int z).

(** The decimal digits, as [\d] and [int] see them in a byte string. *)
Definition is_digit (c : ascii) : bool :=
  let n := nat_of_ascii c in (48 <=? n)%nat && (n <=? 57)%nat.

(** [\w] without the LOCALE and UNICODE flags: [a-zA-Z0-9_]. *)
Definition is_word (c : ascii) : bool :=
  let n := nat_of_ascii c in
  ((97 <=? n)%nat && (n <=? 122)%nat)
  || ((65 <=? n)%nat && (n <=? 90)%nat)
  || is_digit c
  || Ascii.eqb c "_".

(** The value of a run of decimal digits, most significant first. *)
Definition decimal (ds : list ascii) : Z :=
  fold_left (fun acc c => 10 * acc + (Z.of_nat (nat_of_ascii c) - 48)) ds 0.

(** [int(x)] where [x] is what [m.group(n)] gave: a [TypeError] on [None],
    a [ValueError] on a string that is not a literal.  Only unsigned
    decimal literals are read; [\d{1,5}] yields nothing else. *)
Definition int (x : option (list ascii)) : outcome Z :=
  match x with
  | None => Raise (mkExn ["TypeError"; "StandardError"; "Exception";
                          "BaseException"; "object"]%string
                         "int() argument must be a string or a number")
  | Some ds =>
      if negb (Nat.eqb (length ds) 0) && forallb is_digit ds
      then Return (decimal ds)
      else Raise (mkExn ["ValueError"; "StandardError"; "Exception";
                         "BaseException"; "object"]%string
                        "invalid literal for int() with base 10")
  end.

(** What lines 47, 51 and 52 ask of the number a delay is: it can be
    multiplied, printed by ["%d"] and given to [time.sleep], which looks at
    its sign. *)
Class Number (num : Type) : Type := {
  num_mul : num -> num -> num;        (* a * b *)
  num_fmt_d : num -> string;          (* "%d" % a *)
  num_negative : num -> bool          (* a < 0 *)
}.

(** Python's [int]. *)
#[export] Instance int_number : Number Z := {
  num_mul := Z.mul;
  num_fmt_d := fmt_d;
  num_negative := fun a => a <? 0
}.

(** Python's [fractions.Fraction], kept in lowest terms; ["%d"] prints it
    truncated towards zero. *)
#[export] Instance fraction_number : Number Q := {
  num_mul := fun a b => Qred (Qmult a b);
  num_fmt_d := fun a => fmt_d (Z.quot (Qnum a) (Z.pos (Qden a)));
  num_negative := fun a => Qnum a <? 0
}.

(** [IOError(22, 'Invalid argument')]. *)
Definition invalid_argument : exn :=
  mkExn ["IOError"; "EnvironmentError"; "StandardError"; "Exception";
         "BaseException"; "object"]%string "[Errno 22] Invalid argument".

(** [time.sleep(secs)]: [None] when it returns after the delay, or the
    exception it raises.  Python 2.7 hands the delay to [select], which
    refuses a negative one; delays are taken to be short enough for the
    platform to sleep them. *)
Definition time_sleep {num : Type} `{Number num} (secs : num) : option exn :=
  if num_negative secs then Some invalid_argument else None.

End Py.

(** ** decorator.py *)

Module Retry.
Import Py.

Section Wrapper.

(** [num] is the type of the delays; [A] is the type of the values the
    wrapped function returns; [W] is the state that the call
    [function( *args, **kwargs)] reads and writes, so that successive calls
    may behave differently. *)
Context {num : Type} `{Number num} {A W : Type}.

Definition operation : Type := W -> outcome A * W.

(** What can be observed of a call of [wrapper], in the order it happens.
    A [time.sleep] that raises leaves no event: what it raises is the
    outcome of the call of [wrapper]. *)
Inductive event : Type :=
| Invoked (r : outcome A)      (* function( *args, **kwargs) ran, with outcome r *)
| LoggerInfo (msg : string)    (* Logger.info(msg) *)
| TimeSleep (secs : num).      (* time.sleep(secs) returned *)

(** The local variables of one call of [wrapper] (lines 40-43). *)
Record frame : Type := mkFrame {
  _times : Z;
  _sleep_time : num;
  _backoff_factor : num;
  _err_class : string
}.

(** The argument of [Logger.info] on line 51. *)
Definition log_message (times_left : Z) (err : exn) (secs : num) : string :=
  ("Will retry " ++ fmt_d times_left ++ " time(s), caught exception: "
     ++ str err ++ ". Sleeping for " ++ num_fmt_d secs ++ " sec(s)")%string.

(** Lines 45-54: the [while] loop and the call after it.  The result is
    what [wrapper] returns or raises, the state the calls left behind, the
    events of this call of [wrapper], and its local variables when it
    ends. *)
Equations? while_loop (function : operation) (l : frame) (w : W)
  : outcome A * W * list event * frame by wf (Z.to_nat (_times l - 1)) lt :=
while_loop function l w with Z_lt_dec 1 (_times l) := {
  | left _ =>
      let l1 := mkFrame (_times l - 1) (_sleep_time l)
                        (_backoff_factor l) (_err_class l) in
      let l2 := mkFrame (_times l1) (num_mul (_sleep_time l1) (_backoff_factor l1))
                        (_backoff_factor l1) (_err_class l1) in
      match function w with
      | (Return v, w') => (Return v, w', [Invoked (Return v)], l2)
      | (Raise err, w') =>
          if isinstance err (_err_class l2) then
            let msg := log_message (_times l2) err (_sleep_time l2) in
            match time_sleep (_sleep_time l2) with
            | Some sleep_err =>
                (Raise sleep_err, w', [Invoked (Raise err); LoggerInfo msg], l2)
            | None =>
                let '(res, w'', tr, l') := while_loop function l2 w' in
                (res, w'',
                 Invoked (Raise err)
                   :: LoggerInfo msg
                   :: TimeSleep (_sleep_time l2)
                   :: tr,
                 l')
            end
          else (Raise err, w', [Invoked (Raise err)], l2)
      end
  | right _ =>
      let '(res, w') := function w in (res, w', [Invoked res], l) }.
Proof. lia. Qed.

(** Lines 39-54: every call starts from a fresh frame holding copies of
    the arguments of [retry]; the frame is gone when the call ends. *)
Definition wrapper (times : Z) (sleep_time backoff_factor : num) (err_class : string)
  (function : operation) (w : W) : outcome A * W * list event :=
  let l := mkFrame times sleep_time backoff_factor err_class in
  fst (while_loop function l w).

(** Lines 38-55: the decorator closes over the arguments of [retry] and
    turns [function] into its wrapper. *)
Definition decorator (times : Z) (sleep_time backoff_factor : num) (err_class : string)
  : operation -> W -> outcome A * W * list event :=
  fun function => wrapper times sleep_time backoff_factor err_class function.

(** Lines 29-56: [retry(...)] is the decorator and [retry(...)(function)]
    the wrapper. *)
Definition retry (times : Z) (sleep_time backoff_factor : num) (err_class : string)
  : operation -> W -> outcome A * W * list event :=
  decorator times sleep_time backoff_factor err_class.

(** The variables that [decorator] and [wrapper] close over: the arguments
    of one call of [retry], shared by every call of the wrappers that this
    decorator makes. *)
Record cells : Type := mkCells {
  cell_times : Z;
  cell_sleep_time : num;
  cell_backoff_factor : num;
  cell_err_class : string
}.

(** A call of a wrapper together with the cells it closes over.  Lines
    40-43 read the cells into the frame of the call; lines 45-54 assign to
    the frame only, so the cells come out as they went in. *)
Definition call_wrapper (c : cells) (function : operation) (w : W)
  : outcome A * W * list event * cells :=
  let _times := cell_times c in
  let _sleep_time := cell_sleep_time c in
  let _backoff_factor := cell_backoff_factor c in
  let _err_class := cell_err_class c in
  (fst (while_loop function
          (mkFrame _times _sleep_time _backoff_factor _err_class) w),
   c).

(** The local variables of the call when it ends. *)
Definition frame_at_exit (c : cells) (function : operation) (w : W) : frame :=
  snd (while_loop function
         (mkFrame (cell_times c) (cell_sleep_time c)
                  (cell_backoff_factor c) (cell_err_class c)) w).

(** The frame after lines 46 and 47. *)
Definition next_frame (l : frame) : frame :=
  mkFrame (_times l - 1) (num_mul (_sleep_time l) (_backoff_factor l))
          (_backoff_factor l) (_err_class l).

(** An outcome that ends the loop: a value, or a failure that the
    [except] clause does not catch. *)
Definition escapes (cls : string) (r : outcome A) : Prop :=
  match r with
  | Return _ => True
  | Raise err => isinstance err cls = false
  end.

(** *** Reading a trace *)

Definition is_invoked (e : event) : bool :=
  match e with Invoked _ => true | _ => false end.

Definition is_log (e : event) : bool :=
  match e with LoggerInfo _ => true | _ => false end.

Definition invocations (tr : list event) : nat := length (filter is_invoked tr).

Definition log_events (tr : list event) : nat := length (filter is_log tr).

Fixpoint sleeps (tr : list event) : list num :=
  match tr with
  | [] => []
  | TimeSleep secs :: tr' => secs :: sleeps tr'
  | _ :: tr' => sleeps tr'
  end.

(** The texts given to [Logger.info], in order. *)
Fixpoint log_lines (tr : list event) : list string :=
  match tr with
  | [] => []
  | LoggerInfo msg :: tr' => msg :: log_lines tr'
  | _ :: tr' => log_lines tr'
  end.

(** The state after [n] calls of [function] in a row. *)
Fixpoint after (function : operation) (n : nat) (w : W) : W :=
  match n with
  | O => w
  | S n' => after function n' (snd (function w))
  end.

(** The outcome of call number [n + 1]. *)
Definition attempt (function : operation) (n : nat) (w : W) : outcome A :=
  fst (function (after function n w)).

(** Called again and again from the state [w], [function] raises every
    time, with a failure that [except err_class] catches. *)
Definition always_fails (err_class : string) (function : operation) (w : W) : Prop :=
  forall n, match attempt function n w with
            | Raise err => isinstance err err_class = true
            | Return _ => False
            end.

(** The delay of retry number [k]: [sleep_time] multiplied [k] times by
    [backoff_factor], as line 47 does it. *)
Fixpoint delay (sleep_time backoff_factor : num) (k : nat) : num :=
  match k with
  | O => sleep_time
  | S k' => num_mul (delay sleep_time backoff_factor k') backoff_factor
  end.

(** [time.sleep] accepts the delays of the first [n] retries: none of them
    is negative. *)
Definition delays_accepted (sleep_time backoff_factor : num) (n : nat) : Prop :=
  forall k, (1 <= k <= n)%nat -> time_sleep (delay sleep_time backoff_factor k) = None.

(** What one retry leaves in the trace: the failed call, the log line and
    the sleep.  [k] counts the retries of a call of [wrapper] from 1. *)
Definition retry_round (times : Z) (sleep_time backoff_factor : num)
  (k : nat) (err : exn) : list event :=
  let secs := delay sleep_time backoff_factor k in
  [ Invoked (Raise err);
    LoggerInfo (log_message (times - Z.of_nat k) err secs);
    TimeSleep secs ].

(** The rounds of retries number [k], [k + 1], ... after the failures [errs]. *)
Fixpoint retry_rounds (times : Z) (sleep_time backoff_factor : num)
  (k : nat) (errs : list exn) : list event :=
  match errs with
  | [] => []
  | err :: errs' =>
      retry_round times sleep_time backoff_factor k err
        ++ retry_rounds times sleep_time backoff_factor (S k) errs'
  end.

End Wrapper.

Arguments event {num} A.
Arguments operation : clear implicits.
Arguments frame : clear implicits.
Arguments cells : clear implicits.

(** Two operations that share nothing: each works on its own half of the
    state. *)
Definition on_left {A W1 W2 : Type} (f : operation A W1) : operation A (W1 * W2) :=
  fun w => let '(r, w1) := f (fst w) in (r, (w1, snd w)).

Definition on_right {A W1 W2 : Type} (f : operation A W2) : operation A (W1 * W2) :=
  fun w => let '(r, w2) := f (snd w) in (r, (fst w, w2)).

(** One decorator applied to two functions, and the two wrappers called one
    after the other: both close over the same cells. *)
Definition call_both {num : Type} `{Number num} {A B W : Type}
  (c : cells num) (f : operation A W) (g : operation B W) (w : W)
  : (outcome A * list (event A)) * (outcome B * list (event B)) * W * cells num :=
  let '(r1, w1, tr1, c1) := call_wrapper c f w in
  let '(r2, w2, tr2, c2) := call_wrapper c1 g w1 in
  ((r1, tr1), (r2, tr2), w2, c2).

(** An outcome that the [except] clause catches. *)
Definition caught {A : Type} (cls : string) (r : outcome A) : Prop :=
  match r with
  | Return _ => False
  | Raise err => isinstance err cls = true
  end.

(** The seconds a call of [wrapper] spends in [time.sleep]. *)
Definition total_sleep {A : Type} (tr : list (event A)) : Z :=
  fold_right Z.add 0 (sleeps tr).

(** A wrapper used as the function of another decorator, as in
    [retry(...)(retry(...)(function))]: what the inner wrapper logs and
    sleeps happens outside the outer one, so its events go to a journal
    kept in the state. *)
Definition as_operation {num : Type} {A W : Type}
  (wrapped : W -> outcome A * W * list (@event num A))
  : operation A (W * list (@event num A)) :=
  fun st => let '(r, w', tr) := wrapped (fst st) in (r, (w', snd st ++ tr)).

End Retry.

(** ** params.py: [get_port] *)

Module Params.
Import Py.

(** The part of Python's [re] syntax that the pattern of [get_port] uses.
    A repetition is always of a character class here, and greedy. *)
Inductive regex : Type :=
| Lit (s : string)                              (* the characters of s *)
| Cat (r1 r2 : regex)                           (* r1 r2 *)
| Opt (r : regex)                               (* r? *)
| Star (cls : ascii -> bool)                    (* [cls]* *)
| Repeat (cls : ascii -> bool) (lo hi : nat)    (* [cls]{lo,hi} *)
| Group (n : nat) (r : regex).                  (* capturing group number n *)

(** The groups a match has captured so far, the latest first. *)
Definition groups : Type := list (nat * list ascii).

(** [m.group(n)]: [None] when the group took no part in the match. *)
Fixpoint group (m : groups) (n : nat) : option (list ascii) :=
  match m with
  | [] => None
  | (k, v) :: m' => if Nat.eqb k n then Some v else group m' n
  end.

(** [s] without the prefix [p], when it starts with [p]. *)
Fixpoint strip_prefix (p s : list ascii) : option (list ascii) :=
  match p, s with
  | [], _ => Some s
  | a :: p', b :: s' => if Ascii.eqb a b then strip_prefix p' s' else None
  | _ :: _, [] => None
  end.

(** The ways [[cls]{0,hi}] can match at the start of [s], as (matched,
    rest), the longest first: the order a greedy repetition tries them. *)
Fixpoint spans (cls : ascii -> bool) (hi : nat) (s : list ascii)
  : list (list ascii * list ascii) :=
  match hi, s with
  | S hi', c :: s' =>
      if cls c
      then map (fun mr => (c :: fst mr, snd mr)) (spans cls hi' s') ++ [([], s)]
      else [([], s)]
  | _, _ => [([], s)]
  end.

(** Backtracking matcher: all the ways [r] matches at the start of [s], as
    (rest, groups), in the order the [re] engine tries them. *)
Fixpoint rmatch (r : regex) (s : list ascii) (g : groups)
  : list (list ascii * groups) :=
  match r with
  | Lit p =>
      match strip_prefix (list_ascii_of_string p) s with
      | Some rest => [(rest, g)]
      | None => []
      end
  | Cat r1 r2 => flat_map (fun sg => rmatch r2 (fst sg) (snd sg)) (rmatch r1 s g)
  | Opt r1 => rmatch r1 s g ++ [(s, g)]
  | Star cls => map (fun mr => (snd mr, g)) (spans cls (length s) s)
  | Repeat cls lo hi =>
      map (fun mr => (snd mr, g))
          (filter (fun mr => (lo <=? length (fst mr))%nat) (spans cls hi s))
  | Group n r1 =>
      map (fun sg => (fst sg,
                      (n, firstn (length s - length (fst sg)) s) :: snd sg))
          (rmatch r1 s g)
  end.

(** [re.search(r, s)]: the first match at the leftmost position that has
    one, or [None]. *)
Fixpoint search (r : regex) (s : list ascii) : option groups :=
  match rmatch r s [] with
  | (_, m) :: _ => Some m
  | [] =>
      match s with
      | [] => None
      | _ :: s' => search r s'
      end
  end.

(** The class [[\w\d.]]. *)
Definition host_char (c : ascii) : bool :=
  is_word c || is_digit c || Ascii.eqb c ".".

(** Line 57, the pattern given to [re.search].  Piece by piece:
    - [(?:http(?:s)?://)?], an optional scheme, not captured;
    - group 1, any number of characters of the class [[\w\d.]];
    - a colon;
    - group 2, [\d{1,5}]. *)
Definition port_pattern : regex :=
  Cat (Opt (Cat (Lit "http") (Cat (Opt (Lit "s")) (Lit "://"))))
      (Cat (Group 1 (Star host_char))
           (Cat (Lit ":")
                (Group 2 (Repeat is_digit 1 5)))).

(** Lines 51-61.  [None] is Python's [None], for the argument and for the
    result. *)
Definition get_port (address : option string) : outcome (option Z) :=
  match address with
  | None => Return None
  | Some a =>
      let m := search port_pattern (list_ascii_of_string a) in
      match m with
      | Some m =>
          match int (group m 2) with
          | Return port => Return (Some port)
          | Raise err => Raise err
          end
      | None => Return None
      end
  end.

(** What it means for [r] to match exactly the text [a], turning the
    groups [g] into [g']; the matcher above enumerates these matches. *)
Inductive matches : regex -> list ascii -> groups -> groups -> Prop :=
| matches_lit p g :
    matches (Lit p) (list_ascii_of_string p) g g
| matches_cat r1 r2 a b g g1 g2 :
    matches r1 a g g1 -> matches r2 b g1 g2 -> matches (Cat r1 r2) (a ++ b) g g2
| matches_opt_some r a g g' :
    matches r a g g' -> matches (Opt r) a g g'
| matches_opt_none r g :
    matches (Opt r) [] g g
| matches_star cls a g :
    forallb cls a = true -> matches (Star cls) a g g
| matches_repeat cls lo hi a g :
    forallb cls a = true -> (lo <= length a <= hi)%nat ->
    matches (Repeat cls lo hi) a g g
| matches_group n r a g g' :
    matches r a g g' -> matches (Group n r) a g ((n, a) :: g').

(** The addresses that contain [host:port]: an optional [http://] or
    [https://], a host of word characters and dots, a colon, then 1 to 5
    digits. *)
Definition has_host_port (a : string) : Prop :=
  exists before scheme host port rest,
    list_ascii_of_string a
      = before ++ list_ascii_of_string scheme ++ host ++ ":"%char :: port ++ rest
    /\ (scheme = "" \/ scheme = "http://" \/ scheme = "https://")%string
    /\ forallb host_char host = true
    /\ forallb is_digit port = true
    /\ (1 <= length port <= 5)%nat.

(** The integer that a run of decimal digits spells: every digit counts
    for its value times the power of ten of its place. *)
Fixpoint digits_value (ds : list ascii) : Z :=
  match ds with
  | [] => 0
  | c :: ds' =>
      (Z.of_nat (nat_of_ascii c) - 48) * 10 ^ Z.of_nat (length ds') + digits_value ds'
  end.

(** [pre] holds no colon with a digit right after it. *)
Definition no_port_colon (pre : list ascii) : Prop :=
  forall p1 d p2, pre = p1 ++ ":"%char :: d :: p2 -> is_digit d = false.

(** The run [m] of characters of [cls] cannot be made longer: it has [hi]
    characters already, or what follows does not start with one. *)
Definition run_ends (cls : ascii -> bool) (hi : nat) (m rest : list ascii) : Prop :=
  length m = hi
  \/ match rest with
     | [] => True
     | c :: _ => cls c = false
     end.

(** Lines 63-70. *)
Definition is_secure_port (port : option Z) : bool :=
  match port with
  | Some p => p <? 1024
  | None => false
  end.

(** The two characters of the Python literal on lines 78 and 93: a pair of
    double quotes. *)
Definition two_quotes : string := String "034" (String "034" EmptyString).

(** What lines 45-48, 38-42 read from the configuration. *)
Record site : Type := mkSite {
  hdp_stack_version : string;
  security_enabled : bool;
  hdfs_user : string;
  dfs_dn_addr : option string;
  dfs_dn_http_addr : option string;
  dfs_dn_https_addr : option string;
  dfs_http_policy : option string
}.

(** What lines 72-98 define. *)
Record hadoop : Type := mkHadoop {
  mapreduce_libs_path : string;
  hadoop_libexec_dir : string;
  hadoop_home : string;
  secure_dn_ports_are_in_use : bool;
  hadoop_secure_dn_user : string
}.

(** [dfs_http_policy == name], where the policy may be [None]. *)
Definition policy_is (policy : option string) (name : string) : bool :=
  match policy with
  | Some p => String.eqb p name
  | None => false
  end.

Section HadoopParams.

(** [compare_versions] of [resource_management.libraries.functions.version]:
    negative, zero or positive. *)
Variable compare_versions : string -> string -> Z.

(** Lines 49 and 72-98.  The result is [Raise] if one of the calls of
    [get_port] raises. *)
Definition hadoop_params (c : site) : outcome hadoop :=
  if negb (String.eqb (hdp_stack_version c) "")
     && (0 <=? compare_versions (hdp_stack_version c) "2.2")
  then
    if negb (security_enabled c) then
      Return (mkHadoop "/usr/hdp/current/hadoop-mapreduce-client/*"
                       "/usr/hdp/current/hadoop-client/libexec"
                       "/usr/hdp/current/hadoop-client"
                       false two_quotes)
    else
      match get_port (dfs_dn_addr c) with
      | Raise err => Raise err
      | Return dfs_dn_port =>
      match get_port (dfs_dn_http_addr c) with
      | Raise err => Raise err
      | Return dfs_dn_http_port =>
      match get_port (dfs_dn_https_addr c) with
      | Raise err => Raise err
      | Return dfs_dn_https_port =>
          let in_use :=
            if policy_is (dfs_http_policy c) "HTTPS_ONLY" then
              is_secure_port dfs_dn_port || is_secure_port dfs_dn_https_port
            else if policy_is (dfs_http_policy c) "HTTP_AND_HTTPS" then
              is_secure_port dfs_dn_port || is_secure_port dfs_dn_http_port
              || is_secure_port dfs_dn_https_port
            else
              is_secure_port dfs_dn_port || is_secure_port dfs_dn_http_port in
          Return (mkHadoop "/usr/hdp/current/hadoop-mapreduce-client/*"
                           "/usr/hdp/current/hadoop-client/libexec"
                           "/usr/hdp/current/hadoop-client"
                           in_use
                           (if in_use then hdfs_user c else two_quotes))
      end end end
  else
    Return (mkHadoop "/usr/lib/hadoop-mapreduce/*"
                     "/usr/lib/hadoop/libexec"
                     "/usr/lib/hadoop"
                     false (hdfs_user c)).

(** The stack is HDP 2.2 or later: the test of line 73. *)
Definition stack_2_2 (c : site) : bool :=
  negb (String.eqb (hdp_stack_version c) "")
  && (0 <=? compare_versions (hdp_stack_version c) "2.2").

End HadoopParams.

(** A [collections.defaultdict] with string keys: the value its factory
    makes, and the items, the latest assignment first. *)
Record defaultdict (V : Type) : Type := mkDefaultdict {
  default_factory : V;
  items : list (string * V)
}.
Arguments mkDefaultdict {V} _ _.
Arguments default_factory {V} _.
Arguments items {V} _.

Fixpoint assoc {V : Type} (k : string) (kvs : list (string * V)) : option V :=
  match kvs with
  | [] => None
  | (k', v) :: kvs' => if String.eqb k' k then Some v else assoc k kvs'
  end.

(** [d[k] = v]. *)
Definition setitem {V : Type} (k : string) (v : V) (d : defaultdict V) : defaultdict V :=
  mkDefaultdict (default_factory d)
    ((k, v) :: filter (fun kv => negb (String.eqb (fst kv) k)) (items d)).

(** [d[k]]: a missing key is given the value of the factory, which stays
    in the dictionary. *)
Definition getitem {V : Type} (k : string) (d : defaultdict V) : V * defaultdict V :=
  match assoc k (items d) with
  | Some v => (v, d)
  | None => (default_factory d, setitem k (default_factory d) d)
  end.

(** What lines 136-157 read from the configuration. *)
Record accounts : Type := mkAccounts {
  smoke_user : string;
  gmetad_user : string;
  gmond_user : string;
  tez_user : string;
  oozie_user : string;
  user_group : string;
  proxyuser_group : string;
  ganglia_server_hosts : list string;
  oozie_servers : list string;
  has_tez : bool
}.

(** Lines 150 and 153: [not len(hosts) == 0]. *)
Definition has_hosts (hosts : list string) : bool :=
  negb (Nat.eqb (length hosts) 0).

(** Lines 169-177. *)
Definition user_to_groups_dict (c : accounts) : defaultdict (list string) :=
  let d := mkDefaultdict [user_group c] [] in
  let d := setitem (smoke_user c) [proxyuser_group c] d in
  let d :=
    if has_hosts (ganglia_server_hosts c) then
      let d := setitem (gmond_user c) [gmond_user c] d in
      setitem (gmetad_user c) [gmetad_user c] d
    else d in
  let d := if has_tez c then setitem (tez_user c) [proxyuser_group c] d else d in
  let d :=
    if has_hosts (oozie_servers c) then setitem (oozie_user c) [proxyuser_group c] d
    else d in
  d.

End Params.

(** ** Operations used as concrete inputs *)

Module Samples.
Import Py Retry.

Definition io_error (msg : string) : exn :=
  mkExn ["IOError"; "EnvironmentError"; "StandardError"; "Exception";
         "BaseException"; "object"]%string msg.

Definition key_error (msg : string) : exn :=
  mkExn ["KeyError"; "LookupError"; "StandardError"; "Exception";
         "BaseException"; "object"]%string msg.

(** Counts its calls and raises [IOError] on each. *)
Definition always_boom : operation Z nat :=
  fun calls => (Raise (io_error "boom"), S calls).

(** Raises [IOError] on its first [n] calls and returns the number of the
    call from then on. *)
Definition flaky (n : nat) : operation Z nat :=
  fun calls =>
    if (calls <? n)%nat then (Raise (io_error "not yet"), S calls)
    else (Return (Z.of_nat (S calls)), S calls).

(** Raises [KeyError] on every call. *)
Definition missing_key : operation Z nat :=
  fun calls => (Raise (key_error "dfs.datanode.address"), S calls).

End Samples.
(** * Properties *)

Import Py Retry Params Samples.

(** ** The loop, one step at a time *)

Section LoopSteps.
Context {num : Type} `{Number num} {A W : Type}.
Variable function : operation A W.

Lemma while_loop_exit (l : frame num) (w : W) :
  _times l <= 1 ->
  while_loop function l w
  = (fst (function w), snd (function w), [Invoked (fst (function w))], l).
Proof.
  intros Hle. simp while_loop.
  destruct (Z_lt_dec 1 (_times l)) as [Hlt | Hge]; [lia |].
  cbn. destruct (function w); reflexivity.
Qed.

Lemma while_loop_returns (l : frame num) (w : W) (v : A) (w' : W) :
  function w = (Return v, w') ->
  fst (while_loop function l w) = (Return v, w', [Invoked (Return v)]).
Proof.
  intros Hf. simp while_loop.
  destruct (Z_lt_dec 1 (_times l)); cbn; rewrite Hf; reflexivity.
Qed.

Lemma while_loop_uncaught (l : frame num) (w : W) (err : exn) (w' : W) :
  function w = (Raise err, w') ->
  isinstance err (_err_class l) = false ->
  fst (while_loop function l w) = (Raise err, w', [Invoked (Raise err)]).
Proof.
  intros Hf Hc. simp while_loop.
  destruct (Z_lt_dec 1 (_times l)); cbn; rewrite Hf; [rewrite Hc |]; reflexivity.
Qed.

Lemma while_loop_caught (l : frame num) (w : W) (err : exn) (w' : W) :
  1 < _times l ->
  function w = (Raise err, w') ->
  isinstance err (_err_class l) = true ->
  time_sleep (_sleep_time (next_frame l)) = None ->
  while_loop function l w =
    let '(res, w'', tr, l') := while_loop function (next_frame l) w' in
    (res, w'',
     Invoked (Raise err)
       :: LoggerInfo (log_message (_times l - 1) err (_sleep_time (next_frame l)))
       :: TimeSleep (_sleep_time (next_frame l))
       :: tr,
     l').
Proof.
  intros Hlt Hf Hc Hs. rewrite while_loop_equation_1.
  destruct (Z_lt_dec 1 (_times l)) as [Hlt' | Hn]; [| lia].
  cbn in *. rewrite Hf, Hc, Hs. reflexivity.
Qed.

Lemma while_loop_sleep_fails (l : frame num) (w : W) (err sleep_err : exn) (w' : W) :
  1 < _times l ->
  function w = (Raise err, w') ->
  isinstance err (_err_class l) = true ->
  time_sleep (_sleep_time (next_frame l)) = Some sleep_err ->
  while_loop function l w =
    (Raise sleep_err, w',
     [Invoked (Raise err);
      LoggerInfo (log_message (_times l - 1) err (_sleep_time (next_frame l)))],
     next_frame l).
Proof.
  intros Hlt Hf Hc Hs. rewrite while_loop_equation_1.
  destruct (Z_lt_dec 1 (_times l)) as [Hlt' | Hn]; [| lia].
  cbn in *. rewrite Hf, Hc, Hs. reflexivity.
Qed.

End LoopSteps.

(** ** The shape of every trace *)

Section Shape.
Context {num : Type} `{Number num} {A W : Type}.
Variable function : operation A W.

Lemma attempt_S (n : nat) (w : W) :
  attempt function (S n) w = attempt function n (snd (function w)).
Proof. reflexivity. Qed.

Lemma after_succ (n : nat) (w : W) :
  after function (S n) w = snd (function (after function n w)).
Proof.
  revert w. induction n as [| n IH]; intros w; [reflexivity |].
  change (after function (S (S n)) w) with (after function (S n) (snd (function w))).
  rewrite IH. reflexivity.
Qed.

Lemma delay_shift (s b : num) (k : nat) :
  delay (num_mul s b) b k = delay s b (S k).
Proof.
  induction k as [| k IH]; [reflexivity |].
  cbn [delay] in *. rewrite IH. reflexivity.
Qed.

Lemma delays_accepted_shift (s b : num) (n : nat) :
  time_sleep (num_mul s b) = None ->
  delays_accepted (num_mul s b) b n ->
  delays_accepted s b (S n).
Proof.
  intros H1 Hn k Hk. destruct k as [| k]; [lia |].
  rewrite <- delay_shift. destruct k as [| k]; [exact H1 |].
  apply Hn. lia.
Qed.

Lemma delays_accepted_le (s b : num) (n m : nat) :
  (m <= n)%nat -> delays_accepted s b n -> delays_accepted s b m.
Proof. intros Hle Hn k Hk. apply Hn. lia. Qed.

Lemma retry_rounds_shift (t : Z) (s b : num) (errs : list exn) :
  forall k, @retry_rounds num _ A (t - 1) (num_mul s b) b k errs
            = retry_rounds t s b (S k) errs.
Proof.
  induction errs as [| err errs IH]; intros k; [reflexivity |].
  cbn [retry_rounds]. rewrite IH. f_equal.
  unfold retry_round. rewrite delay_shift.
  replace (t - 1 - Z.of_nat k) with (t - Z.of_nat (S k)) by lia.
  reflexivity.
Qed.

Lemma iter_next_frame (n : nat) (l : frame num) :
  Nat.iter n next_frame (next_frame l) = Nat.iter (S n) next_frame l.
Proof.
  induction n as [| n IH]; [reflexivity |].
  change (Nat.iter (S n) next_frame (next_frame l))
    with (next_frame (Nat.iter n next_frame (next_frame l))).
  rewrite IH. reflexivity.
Qed.

(** Every run of the loop is a number of rounds, one per caught failure.
    Either all their sleeps returned, and one last call gives the
    result; or the sleep of the last round raised, and that is the
    result. *)
Lemma while_loop_shape (n : nat) :
  forall (l : frame num) (w : W),
    (Z.to_nat (_times l - 1) <= n)%nat ->
    exists errs : list exn,
      Forall (fun err => isinstance err (_err_class l) = true) errs
      /\ (forall j, (j < length errs)%nat ->
                    attempt function j w = Raise (nth j errs (mkExn [] "")))
      /\ (length errs <= Z.to_nat (_times l - 1))%nat
      /\ ((fst (while_loop function l w)
           = (attempt function (length errs) w,
              after function (S (length errs)) w,
              retry_rounds (_times l) (_sleep_time l) (_backoff_factor l) 1 errs
                ++ [Invoked (attempt function (length errs) w)])
           /\ delays_accepted (_sleep_time l) (_backoff_factor l) (length errs)
           /\ ((length errs < Z.to_nat (_times l - 1))%nat ->
               escapes (_err_class l) (attempt function (length errs) w))
           /\ (length errs = Z.to_nat (_times l - 1) ->
               snd (while_loop function l w) = Nat.iter (length errs) next_frame l))
          \/ (exists (errs' : list exn) (e sleep_err : exn),
                 errs = errs' ++ [e]
                 /\ delays_accepted (_sleep_time l) (_backoff_factor l) (length errs')
                 /\ time_sleep (delay (_sleep_time l) (_backoff_factor l) (length errs))
                    = Some sleep_err
                 /\ fst (while_loop function l w)
                    = (Raise sleep_err,
                       after function (length errs) w,
                       retry_rounds (_times l) (_sleep_time l) (_backoff_factor l) 1 errs'
                         ++ [Invoked (Raise e);
                             LoggerInfo
                               (log_message (_times l - Z.of_nat (length errs)) e
                                  (delay (_sleep_time l) (_backoff_factor l)
                                         (length errs)))]))).
Proof.
  assert (forall (l : frame num) (w : W),
             _times l <= 1 \/ escapes (_err_class l) (fst (function w)) ->
             exists errs : list exn,
               errs = []
               /\ fst (while_loop function l w)
                  = (attempt function 0 w, after function 1 w,
                     [Invoked (attempt function 0 w)])
               /\ (_times l <= 1 -> snd (while_loop function l w) = l)) as Hstop.
  { intros l w Hcase. exists []. split; [reflexivity |].
    destruct (Z_le_gt_dec (_times l) 1) as [Hle | Hgt].
    - rewrite while_loop_exit by exact Hle. split; [reflexivity | reflexivity].
    - destruct Hcase as [Hle | Hesc]; [lia |].
      split; [| lia].
      unfold attempt; cbn [after].
      destruct (function w) as [[v | err] w'] eqn:Hf; cbn [fst snd] in *.
      + rewrite (while_loop_returns _ _ _ _ _ Hf). reflexivity.
      + rewrite (while_loop_uncaught _ _ _ _ _ Hf Hesc). reflexivity. }
  assert (forall (l : frame num) (w : W),
             _times l <= 1 \/ escapes (_err_class l) (fst (function w)) ->
             exists errs : list exn,
               Forall (fun err => isinstance err (_err_class l) = true) errs
               /\ (forall j, (j < length errs)%nat ->
                             attempt function j w = Raise (nth j errs (mkExn [] "")))
               /\ (length errs <= Z.to_nat (_times l - 1))%nat
               /\ ((fst (while_loop function l w)
                    = (attempt function (length errs) w,
                       after function (S (length errs)) w,
                       retry_rounds (_times l) (_sleep_time l) (_backoff_factor l) 1 errs
                         ++ [Invoked (attempt function (length errs) w)])
                    /\ delays_accepted (_sleep_time l) (_backoff_factor l) (length errs)
                    /\ ((length errs < Z.to_nat (_times l - 1))%nat ->
                        escapes (_err_class l) (attempt function (length errs) w))
                    /\ (length errs = Z.to_nat (_times l - 1) ->
                        snd (while_loop function l w)
                        = Nat.iter (length errs) next_frame l))
                   \/ False)) as Hstop'.
  { intros l w Hcase. destruct (Hstop l w Hcase) as (errs & -> & Hrun & Hexit).
    exists []. split; [constructor |]. split; [cbn; intros; lia |].
    split; [cbn; lia |]. left. split; [exact Hrun |].
    split; [intros k Hk; cbn in Hk; lia |]. split.
    - cbn [length]. intros Hlt. destruct Hcase as [Hle | Hesc]; [lia | exact Hesc].
    - cbn [length Nat.iter]. intros Heq. apply Hexit. lia. }
  induction n as [| n IH]; intros l w Hn.
  - destruct (Hstop' l w) as (errs & H1 & H2 & H3 & [H4 | []]); [left; lia |].
    exists errs. auto.
  - destruct (Z_lt_dec 1 (_times l)) as [Hlt | Hge].
    2:{ destruct (Hstop' l w) as (errs & H1 & H2 & H3 & [H4 | []]); [left; lia |].
        exists errs. auto. }
    destruct (function w) as [[v | err] w'] eqn:Hf.
    { destruct (Hstop' l w) as (errs & H1 & H2 & H3 & [H4 | []]);
        [right; rewrite Hf; exact I |]. exists errs. auto. }
    destruct (isinstance err (_err_class l)) eqn:Hc.
    2:{ destruct (Hstop' l w) as (errs & H1 & H2 & H3 & [H4 | []]);
          [right; rewrite Hf; exact Hc |]. exists errs. auto. }
    destruct (time_sleep (_sleep_time (next_frame l))) as [sleep_err |] eqn:Hs.
    + (* the first sleep raises *)
      exists [err]. split; [constructor; [exact Hc | constructor] |].
      split. { intros [| j] Hj; [| cbn in Hj; lia]. unfold attempt; cbn. rewrite Hf. reflexivity. }
      split; [cbn; lia |]. right. exists [], err, sleep_err.
      split; [reflexivity |]. split; [intros k Hk; cbn in Hk; lia |].
      split; [exact Hs |].
      rewrite (while_loop_sleep_fails _ _ _ _ _ _ Hlt Hf Hc Hs).
      cbn [fst length after retry_rounds app]. rewrite Hf. reflexivity.
    + destruct (IH (next_frame l) w') as (errs & Hall & Hnth & Hlen & Hcases);
        [cbn; lia |].
      cbn [next_frame _times _sleep_time _backoff_factor _err_class] in Hall, Hnth, Hlen, Hcases, Hs.
      exists (err :: errs). split; [constructor; assumption |].
      split.
      { intros [| j] Hj.
        - unfold attempt; cbn. rewrite Hf. reflexivity.
        - rewrite attempt_S, Hf. cbn. apply Hnth. cbn in Hj. lia. }
      split; [cbn [length]; lia |].
      rewrite (while_loop_caught _ _ _ _ _ Hlt Hf Hc Hs).
      destruct (while_loop function (next_frame l) w') as [[[res w''] tr] l'] eqn:Hrec.
      cbn [fst snd] in Hcases |- *.
      cbn [next_frame _times _sleep_time _backoff_factor _err_class].
      destruct Hcases as [(Hrun & Hdel & Hesc & Hexit) | (errs' & e & serr & Herrs & Hdel & Hfail & Hrun)].
      * left. injection Hrun as -> -> ->.
        cbn [length]. rewrite !attempt_S.
        change (after function (S (S (length errs))) w)
          with (after function (S (length errs)) (snd (function w))).
        rewrite Hf. cbn [snd]. rewrite retry_rounds_shift.
        split; [reflexivity |].
        split; [apply delays_accepted_shift; assumption |].
        split; [intros Hk; apply Hesc; lia |].
        intros Heq. rewrite Hexit by lia. apply iter_next_frame.
      * right. exists (err :: errs'), e, serr.
        split; [rewrite Herrs; reflexivity |].
        split; [apply delays_accepted_shift; assumption |].
        cbn [length]. rewrite <- delay_shift.
        split; [exact Hfail |].
        injection Hrun as -> -> ->.
        change (after function (S (length errs)) w)
          with (after function (length errs) (snd (function w))).
        rewrite Hf. cbn [snd]. rewrite retry_rounds_shift.
        replace (_times l - 1 - Z.of_nat (length errs))
          with (_times l - Z.of_nat (S (length errs))) by lia.
        reflexivity.
Qed.

Lemma invocations_rounds (t : Z) (s b : num) (errs : list exn) (tl : list (event A)) :
  forall k, invocations (retry_rounds t s b k errs ++ tl)
            = (length errs + invocations tl)%nat.
Proof.
  induction errs as [| err errs IH]; intros k; [reflexivity |].
  cbn [retry_rounds retry_round app length].
  unfold invocations in *. cbn. rewrite IH. reflexivity.
Qed.

Lemma log_events_rounds (t : Z) (s b : num) (errs : list exn) (tl : list (event A)) :
  forall k, log_events (retry_rounds t s b k errs ++ tl)
            = (length errs + log_events tl)%nat.
Proof.
  induction errs as [| err errs IH]; intros k; [reflexivity |].
  cbn [retry_rounds retry_round app length].
  unfold log_events in *. cbn. rewrite IH. reflexivity.
Qed.

Lemma sleeps_rounds (t : Z) (s b : num) (errs : list exn) (tl : list (event A)) :
  forall k, sleeps (retry_rounds t s b k errs ++ tl)
            = map (delay s b) (seq k (length errs)) ++ sleeps tl.
Proof.
  induction errs as [| err errs IH]; intros k; [reflexivity |].
  cbn [retry_rounds retry_round app length seq map sleeps].
  rewrite IH. reflexivity.
Qed.

End Shape.

(** ** Integer delays *)

Section IntDelays.

Lemma int_delay (s b : Z) (k : nat) : delay s b k = s * b ^ Z.of_nat k.
Proof.
  induction k as [| k IH]; [cbn; lia |].
  cbn [delay num_mul int_number]. rewrite IH, Nat2Z.inj_succ, Z.pow_succ_r by lia. ring.
Qed.

(** [time.sleep] accepts every delay of a policy whose [sleep_time] and
    [backoff_factor] are integers that are not negative. *)
Lemma int_delays_accepted (s b : Z) (n : nat) :
  0 <= s -> 0 <= b -> delays_accepted s b n.
Proof.
  intros Hs Hb k _. rewrite int_delay. unfold time_sleep. cbn [num_negative int_number].
  assert (0 <= s * b ^ Z.of_nat k) as Hk by (apply Z.mul_nonneg_nonneg; [| apply Z.pow_nonneg]; lia).
  destruct (Z.ltb_spec (s * b ^ Z.of_nat k) 0); [lia | reflexivity].
Qed.

End IntDelays.

(** ** The claims about [retry] *)

Section RetryClaims.
Context {num : Type} `{Number num} {A W : Type}.
Variable function : operation A W.
Variables (sleep_time backoff_factor : num) (err_class : string).

Lemma always_fails_not_escapes (n : nat) (w : W) :
  always_fails err_class function w ->
  ~ escapes err_class (attempt function n w).
Proof.
  intros Hall Hesc. specialize (Hall n).
  destruct (attempt function n w) as [v | err]; [exact Hall |].
  cbn in Hesc. congruence.
Qed.

(** The shape of a call of the wrapper when [time.sleep] accepts the
    delays it may be given. *)
Lemma retry_shape (times : Z) (w : W) :
  delays_accepted sleep_time backoff_factor (Z.to_nat (times - 1)) ->
  exists errs : list exn,
    retry times sleep_time backoff_factor err_class function w
      = (attempt function (length errs) w,
         after function (S (length errs)) w,
         retry_rounds times sleep_time backoff_factor 1 errs
           ++ [Invoked (attempt function (length errs) w)])
    /\ Forall (fun err => isinstance err err_class = true) errs
    /\ (forall j, (j < length errs)%nat ->
                  attempt function j w = Raise (nth j errs (mkExn [] "")))
    /\ (length errs <= Z.to_nat (times - 1))%nat
    /\ ((length errs < Z.to_nat (times - 1))%nat ->
        escapes err_class (attempt function (length errs) w))
    /\ (length errs = Z.to_nat (times - 1) ->
        snd (while_loop function
               (mkFrame times sleep_time backoff_factor err_class) w)
        = Nat.iter (length errs) next_frame
                   (mkFrame times sleep_time backoff_factor err_class)).
Proof.
  intros Hok.
  destruct (while_loop_shape function (Z.to_nat (times - 1))
              (mkFrame times sleep_time backoff_factor err_class) w)
    as (errs & Hall & Hnth & Hlen & Hcases); [cbn; lia |].
  cbn [_times _sleep_time _backoff_factor _err_class] in *.
  destruct Hcases as [(Hrun & _ & Hesc & Hexit) | (errs' & e & serr & Herrs & _ & Hfail & _)].
  - exists errs. unfold retry, decorator, wrapper. auto 10.
  - exfalso. rewrite Hok in Hfail; [discriminate |].
    subst errs. rewrite length_app in *. cbn [length] in *. lia.
Qed.

(** What [retry] does on an operation that never stops failing. *)
Lemma always_fails_run (times : Z) (w : W) :
  always_fails err_class function w ->
  delays_accepted sleep_time backoff_factor (Z.to_nat (times - 1)) ->
  exists errs : list exn,
    length errs = Z.to_nat (times - 1)
    /\ retry times sleep_time backoff_factor err_class function w
       = (attempt function (length errs) w,
          after function (S (length errs)) w,
          retry_rounds times sleep_time backoff_factor 1 errs
            ++ [Invoked (attempt function (length errs) w)])
    /\ snd (while_loop function
              (mkFrame times sleep_time backoff_factor err_class) w)
       = Nat.iter (length errs) next_frame
                  (mkFrame times sleep_time backoff_factor err_class).
Proof.
  intros Hall Hok.
  destruct (retry_shape times w Hok) as (errs & Hrun & _ & _ & Hlen & Hesc & Hexit).
  exists errs.
  assert (length errs = Z.to_nat (times - 1)) as Heq.
  { destruct (Nat.eq_dec (length errs) (Z.to_nat (times - 1))) as [Heq | Hne]; [exact Heq |].
    exfalso. apply (always_fails_not_escapes (length errs) w Hall).
    apply Hesc. lia. }
  auto.
Qed.

(** C1.  With [times = N >= 1], delays that [time.sleep] accepts (none is
    negative) and an operation that raises a failure of class [err_class]
    on every call, the wrapper calls the operation exactly [N] times, logs
    exactly [N - 1] times, and raises the very exception that call number
    [N] raised. *)
Theorem always_failing_uses_all_attempts (N : Z) (w : W) :
  1 <= N ->
  delays_accepted sleep_time backoff_factor (Z.to_nat (N - 1)) ->
  always_fails err_class function w ->
  exists (err : exn) (tr : list (event A)),
    retry N sleep_time backoff_factor err_class function w
      = (Raise err, after function (Z.to_nat N) w, tr)
    /\ fst (function (after function (Z.to_nat (N - 1)) w)) = Raise err
    /\ Z.of_nat (invocations tr) = N
    /\ Z.of_nat (log_events tr) = N - 1.
Proof.
  intros HN Hok Hall.
  destruct (always_fails_run N w Hall Hok) as (errs & Hlen & Hrun & _).
  pose proof (Hall (length errs)) as Hlast. unfold attempt in Hlast.
  destruct (fst (function (after function (length errs) w))) as [v | err] eqn:Hf;
    [contradiction |].
  exists err. eexists. rewrite Hrun. unfold attempt. rewrite Hf.
  split; [| split; [| split]].
  - rewrite Hlen. replace (S (Z.to_nat (N - 1))) with (Z.to_nat N) by lia.
    reflexivity.
  - rewrite <- Hlen. exact Hf.
  - rewrite invocations_rounds. cbn. lia.
  - rewrite log_events_rounds. cbn. lia.
Qed.

(** C2.  On an operation that always fails with a caught failure, and with
    delays that [time.sleep] accepts, the sleep before retry number [k]
    lasts [sleep_time] multiplied [k] times by [backoff_factor]; for
    integers that are not negative this is
    [sleep_time * backoff_factor ^ k]; with [sleep_time = 1],
    [backoff_factor = 2] and [times = 4] the sleeps are 2, 4 and 8
    seconds. *)
Theorem sleeps_grow_geometrically (times : Z) (w : W) :
  always_fails err_class function w ->
  delays_accepted sleep_time backoff_factor (Z.to_nat (times - 1)) ->
  sleeps (snd (retry times sleep_time backoff_factor err_class function w))
    = map (delay sleep_time backoff_factor) (seq 1 (Z.to_nat (times - 1)))
  /\ (forall (tms s b : Z),
        0 <= s -> 0 <= b ->
        sleeps (snd (retry tms s b err_class function w))
        = map (fun k => s * b ^ Z.of_nat k) (seq 1 (Z.to_nat (tms - 1))))
  /\ sleeps (snd (retry 4 1 2 err_class function w)) = [2; 4; 8].
Proof.
  intros Hall Hok.
  assert (forall (tms s b : Z),
             0 <= s -> 0 <= b ->
             sleeps (snd (retry tms s b err_class function w))
             = map (fun k => s * b ^ Z.of_nat k) (seq 1 (Z.to_nat (tms - 1)))) as Hint.
  { intros tms s b Hs Hb.
    destruct (while_loop_shape function (Z.to_nat (tms - 1))
                (mkFrame tms s b err_class) w)
      as (errs & _ & _ & Hlen & Hcases); [cbn; lia |].
    cbn [_times _sleep_time _backoff_factor _err_class] in *.
    destruct Hcases as [(Hrun & _ & Hesc & _) | (errs' & e & serr & _ & _ & Hfail & _)].
    - assert (length errs = Z.to_nat (tms - 1)) as Heq.
      { destruct (Nat.eq_dec (length errs) (Z.to_nat (tms - 1))) as [Heq | Hne]; [exact Heq |].
        exfalso. apply (always_fails_not_escapes (length errs) w Hall).
        apply Hesc. lia. }
      unfold retry, decorator, wrapper. rewrite Hrun. cbn [snd].
      rewrite sleeps_rounds, Heq. cbn [sleeps]. rewrite app_nil_r.
      apply map_ext. intros k. apply int_delay.
    - rewrite (int_delays_accepted s b (length errs) Hs Hb (length errs)) in Hfail;
        [discriminate |].
      destruct errs; [| cbn; lia].
      cbn in Hfail. unfold time_sleep in Hfail. cbn in Hfail.
      destruct (Z.ltb_spec s 0); [lia | discriminate]. }
  split; [| split; [exact Hint |]].
  - destruct (always_fails_run times w Hall Hok) as (errs & Hlen & Hrun & _).
    rewrite Hrun. cbn [snd]. rewrite sleeps_rounds, Hlen. cbn [sleeps].
    apply app_nil_r.
  - rewrite (Hint 4 1 2) by lia. reflexivity.
Qed.

(** C3.  When the first call raises a failure that is not of class
    [err_class], that call is the only one, nothing is logged, nothing is
    slept, and the same exception reaches the caller, whatever [times] is. *)
Theorem uncaught_failure_is_not_retried (times : Z) (w w' : W) (err : exn) :
  function w = (Raise err, w') ->
  isinstance err err_class = false ->
  exists tr : list (event A),
    retry times sleep_time backoff_factor err_class function w = (Raise err, w', tr)
    /\ tr = [Invoked (Raise err)]
    /\ invocations tr = 1%nat
    /\ log_events tr = 0%nat
    /\ sleeps tr = [].
Proof.
  intros Hf Hc. eexists. split.
  - unfold retry, decorator, wrapper. apply while_loop_uncaught; [exact Hf | exact Hc].
  - repeat split.
Qed.

(** C5.  With [times = 5], delays that [time.sleep] accepts and an
    operation that raises a caught failure on its first two calls and
    returns [v] on the third, the wrapper makes exactly 3 calls, logs
    twice, sleeps twice and returns [v]; the state is the one the third
    call left, so nothing ran after it. *)
Theorem two_failures_then_success (w0 w1 w2 w3 : W) (e1 e2 : exn) (v : A) :
  delays_accepted sleep_time backoff_factor 2 ->
  function w0 = (Raise e1, w1) -> isinstance e1 err_class = true ->
  function w1 = (Raise e2, w2) -> isinstance e2 err_class = true ->
  function w2 = (Return v, w3) ->
  exists tr : list (event A),
    retry 5 sleep_time backoff_factor err_class function w0 = (Return v, w3, tr)
    /\ tr = retry_round 5 sleep_time backoff_factor 1 e1
              ++ retry_round 5 sleep_time backoff_factor 2 e2
              ++ [Invoked (Return v)]
    /\ invocations tr = 3%nat
    /\ log_events tr = 2%nat
    /\ sleeps tr = [num_mul sleep_time backoff_factor;
                    num_mul (num_mul sleep_time backoff_factor) backoff_factor].
Proof.
  intros Hok Hf0 Hc0 Hf1 Hc1 Hf2. eexists.
  split; [| split; [reflexivity | repeat split]].
  unfold retry, decorator, wrapper.
  rewrite (while_loop_caught function _ w0 e1 w1);
    [| cbn; lia | exact Hf0 | exact Hc0 | apply (Hok 1%nat); lia].
  rewrite (while_loop_caught function _ w1 e2 w2);
    [| cbn; lia | exact Hf1 | exact Hc1 | apply (Hok 2%nat); lia].
  match goal with
  | |- context [while_loop function ?l w2] =>
      pose proof (while_loop_returns function l w2 v w3 Hf2) as Hret;
      destruct (while_loop function l w2) as [[[res w''] tr] l']
  end.
  cbn [fst] in Hret |- *. injection Hret as -> -> ->.
  reflexivity.
Qed.

(** C6.  With [times = 1] the operation runs exactly once: the wrapper
    gives back its outcome, a value or a failure of any class, and neither
    logs nor sleeps. *)
Theorem one_attempt_runs_once (w : W) :
  exists tr : list (event A),
    retry 1 sleep_time backoff_factor err_class function w
      = (fst (function w), snd (function w), tr)
    /\ tr = [Invoked (fst (function w))]
    /\ invocations tr = 1%nat
    /\ log_events tr = 0%nat
    /\ sleeps tr = [].
Proof.
  eexists. split.
  - unfold retry, decorator, wrapper. rewrite while_loop_exit by (cbn; lia). reflexivity.
  - repeat split.
Qed.

(** C9.  With [times <= 1], zero and negative values included, the
    operation still runs exactly once: the wrapper gives back its outcome
    and neither logs nor sleeps. *)
Theorem no_attempts_left_still_runs_once (times : Z) (w : W) :
  times <= 1 ->
  exists tr : list (event A),
    retry times sleep_time backoff_factor err_class function w
      = (fst (function w), snd (function w), tr)
    /\ tr = [Invoked (fst (function w))]
    /\ invocations tr = 1%nat
    /\ log_events tr = 0%nat
    /\ sleeps tr = [].
Proof.
  intros Ht. eexists. split.
  - unfold retry, decorator, wrapper. rewrite while_loop_exit by (cbn; exact Ht). reflexivity.
  - repeat split.
Qed.

End RetryClaims.

(** ** Logging and sleeping *)

Section LogClaims.
Context {num : Type} `{Number num} {A W : Type}.
Variable function : operation A W.
Variables (times : Z) (sleep_time backoff_factor : num) (err_class : string).

(** In a run of rounds, whatever precedes a sleep ends with the failed
    call and the log line of the same round. *)
Lemma sleep_follows_its_log (errs : list exn) (r : outcome A) :
  forall (k : nat) (pre post : list (event A)) (secs : num),
    retry_rounds times sleep_time backoff_factor k errs ++ [Invoked r]
      = pre ++ TimeSleep secs :: post ->
    exists (pre' : list (event A)) (err : exn),
      pre = pre' ++ [Invoked (Raise err);
                     LoggerInfo (log_message
                                   (times - Z.of_nat k - Z.of_nat (invocations pre) + 1)
                                   err secs)].
Proof.
  induction errs as [| e errs IH]; intros k pre post secs Heq.
  - destruct pre as [| a [| b pre]]; cbn in Heq; discriminate.
  - cbn [retry_rounds retry_round app] in Heq.
    destruct pre as [| a [| b [| c pre]]]; cbn in Heq; try discriminate.
    + injection Heq as Ha Hb Hc _. subst a b secs. exists [], e. cbn.
      replace (times - Z.of_nat k - 1 + 1) with (times - Z.of_nat k) by lia.
      reflexivity.
    + injection Heq as Ha Hb Hc Hrest. subst a b c.
      destruct (IH (S k) pre post secs Hrest) as (pre' & err & Hpre).
      exists (Invoked (Raise e)
                :: LoggerInfo (log_message (times - Z.of_nat k) e
                                 (delay sleep_time backoff_factor k))
                :: TimeSleep (delay sleep_time backoff_factor k) :: pre'), err.
      rewrite Hpre at 1. cbn [app]. do 3 f_equal.
      unfold invocations. cbn [filter is_invoked length].
      fold (invocations pre).
      replace (times - Z.of_nat k - Z.of_nat (S (invocations pre)) + 1)
        with (times - Z.of_nat (S k) - Z.of_nat (invocations pre) + 1) by lia.
      reflexivity.
Qed.

(** A log line of a run of rounds is followed at once by a sleep. *)
Lemma log_precedes_a_sleep (errs : list exn) (r : outcome A) :
  forall (k : nat) (pre post : list (event A)) (msg : string),
    retry_rounds times sleep_time backoff_factor k errs ++ [Invoked r]
      = pre ++ LoggerInfo msg :: post ->
    exists (secs : num) (post' : list (event A)), post = TimeSleep secs :: post'.
Proof.
  induction errs as [| e errs IH]; intros k pre post msg Heq.
  - destruct pre as [| a [| b pre]]; cbn in Heq; discriminate.
  - cbn [retry_rounds retry_round app] in Heq.
    destruct pre as [| a [| b [| c pre]]]; cbn in Heq; try discriminate.
    + injection Heq as _ _ Hpost. eauto.
    + injection Heq as _ _ _ Hrest. eapply IH. exact Hrest.
Qed.

(** C7, as the code has it.  When [time.sleep] accepts the delays (none
    is negative), every call of the wrapper leaves a trace made of one
    round per retry and then the last call.  A round is the failed call,
    one log line and the sleep, in that order; the log line reads
    "Will retry N time(s), caught exception: E. Sleeping for S sec(s)"
    where N is the number of attempts left, E is [str] of the exception
    just caught and S is the delay about to be slept as ["%d"] prints it:
    the delay itself when it is an integer, its integer part otherwise.
    Nothing follows the last call, whether it returned or raised, so
    nothing is logged for it. *)
Theorem one_log_line_before_each_sleep (w : W) :
  delays_accepted sleep_time backoff_factor (Z.to_nat (times - 1)) ->
  exists (res : outcome A) (w' : W) (tr : list (event A)) (errs : list exn),
    retry times sleep_time backoff_factor err_class function w = (res, w', tr)
    /\ tr = retry_rounds times sleep_time backoff_factor 1 errs ++ [Invoked res]
    /\ res = attempt function (length errs) w
    /\ (forall j, (j < length errs)%nat ->
                  attempt function j w = Raise (nth j errs (mkExn [] "")))
    /\ log_events tr = length errs
    /\ length (sleeps tr) = length errs
    /\ invocations tr = S (length errs)
    /\ (forall pre post secs,
          tr = pre ++ TimeSleep secs :: post ->
          exists pre' err,
            pre = pre'
                  ++ [Invoked (Raise err);
                      LoggerInfo
                        ("Will retry "
                           ++ fmt_d (times - Z.of_nat (invocations pre))
                           ++ " time(s), caught exception: " ++ str err
                           ++ ". Sleeping for " ++ num_fmt_d secs ++ " sec(s)")%string])
    /\ (forall pre post msg,
          tr = pre ++ LoggerInfo msg :: post ->
          exists secs post', post = TimeSleep secs :: post').
Proof.
  intros Hok.
  destruct (retry_shape function sleep_time backoff_factor err_class times w Hok)
    as (errs & Hrun & _ & Hnth & _ & _ & _).
  do 3 eexists. exists errs.
  split; [exact Hrun |].
  split; [reflexivity |].
  split; [reflexivity |].
  split; [exact Hnth |].
  split; [rewrite log_events_rounds; cbn; lia |].
  split; [rewrite sleeps_rounds, length_app, length_map, length_seq; cbn; lia |].
  split; [rewrite invocations_rounds; cbn; lia |].
  split.
  - intros pre post secs Heq.
    destruct (sleep_follows_its_log _ _ _ _ _ _ Heq) as (pre' & err & Hpre).
    exists pre', err. rewrite Hpre at 1.
    replace (times - Z.of_nat 1 - Z.of_nat (invocations pre) + 1)
      with (times - Z.of_nat (invocations pre)) by lia.
    reflexivity.
  - intros pre post msg Heq. eapply log_precedes_a_sleep. exact Heq.
Qed.

End LogClaims.

(** C7 as the specification states it does not hold: the log line does not
    always contain the sleep duration.  With [sleep_time] one half and with
    [sleep_time] one quarter ([backoff_factor = 1], [times = 2], an
    operation that always raises), the wrapper writes the same line,
    "Sleeping for 0 sec(s)", and then sleeps half a second in one case and
    a quarter of a second in the other. *)
Lemma log_line_drops_the_fraction :
  log_lines (snd (retry 2 (1 # 2)%Q (1 # 1)%Q "Exception" always_boom 0%nat))
  = ["Will retry 1 time(s), caught exception: boom. Sleeping for 0 sec(s)"%string]
  /\ log_lines (snd (retry 2 (1 # 4)%Q (1 # 1)%Q "Exception" always_boom 0%nat))
     = log_lines (snd (retry 2 (1 # 2)%Q (1 # 1)%Q "Exception" always_boom 0%nat))
  /\ sleeps (snd (retry 2 (1 # 2)%Q (1 # 1)%Q "Exception" always_boom 0%nat))
     = [(1 # 2)%Q]
  /\ sleeps (snd (retry 2 (1 # 4)%Q (1 # 1)%Q "Exception" always_boom 0%nat))
     = [(1 # 4)%Q]
  /\ ~ ((1 # 2) == (1 # 4))%Q.
Proof.
  repeat split; try reflexivity. intros Heq. discriminate Heq.
Qed.

(** ** Calls do not influence one another *)

Section Reuse.
Context {num : Type} `{Number num} {A B W1 W2 : Type}.
Variable c : cells num.

Lemma while_loop_on_left (f : operation A W1) (n : nat) :
  forall (l : frame num) (w1 : W1) (w2 : W2),
    (Z.to_nat (_times l - 1) <= n)%nat ->
    fst (while_loop (on_left f) l (w1, w2))
      = (fst (fst (fst (while_loop f l w1))),
         (snd (fst (fst (while_loop f l w1))), w2),
         snd (fst (while_loop f l w1))).
Proof.
  induction n as [| n IH]; intros l w1 w2 Hn.
  - rewrite !while_loop_exit by lia. unfold on_left. cbn.
    destruct (f w1); reflexivity.
  - destruct (Z_lt_dec 1 (_times l)) as [Hlt | Hge].
    2:{ rewrite !while_loop_exit by lia. unfold on_left. cbn.
        destruct (f w1); reflexivity. }
    destruct (f w1) as [[v | err] w1'] eqn:Hf.
    + rewrite (while_loop_returns f _ _ _ _ Hf).
      rewrite (while_loop_returns (on_left f) l (w1, w2) v (w1', w2));
        [reflexivity | unfold on_left; cbn; rewrite Hf; reflexivity].
    + assert (on_left f (w1, w2) = (Raise err, (w1', w2))) as Hf'
          by (unfold on_left; cbn; rewrite Hf; reflexivity).
      destruct (isinstance err (_err_class l)) eqn:Hc.
      * destruct (time_sleep (_sleep_time (next_frame l))) as [serr |] eqn:Hs.
        -- rewrite (while_loop_sleep_fails f _ _ _ _ _ Hlt Hf Hc Hs).
           rewrite (while_loop_sleep_fails (on_left f) _ _ _ _ _ Hlt Hf' Hc Hs).
           reflexivity.
        -- rewrite (while_loop_caught f _ _ _ _ Hlt Hf Hc Hs).
           rewrite (while_loop_caught (on_left f) _ _ _ _ Hlt Hf' Hc Hs).
           specialize (IH (next_frame l) w1' w2 ltac:(cbn; lia)).
           destruct (while_loop (on_left f) (next_frame l) (w1', w2)) as [[[r1 x1] t1] l1].
           destruct (while_loop f (next_frame l) w1') as [[[r2 x2] t2] l2].
           cbn [fst snd] in IH |- *. injection IH as -> -> ->. reflexivity.
      * rewrite (while_loop_uncaught f _ _ _ _ Hf Hc).
        rewrite (while_loop_uncaught (on_left f) _ _ _ _ Hf' Hc).
        reflexivity.
Qed.

Lemma while_loop_on_right (g : operation B W2) (n : nat) :
  forall (l : frame num) (w1 : W1) (w2 : W2),
    (Z.to_nat (_times l - 1) <= n)%nat ->
    fst (while_loop (on_right g) l (w1, w2))
      = (fst (fst (fst (while_loop g l w2))),
         (w1, snd (fst (fst (while_loop g l w2)))),
         snd (fst (while_loop g l w2))).
Proof.
  induction n as [| n IH]; intros l w1 w2 Hn.
  - rewrite !while_loop_exit by lia. unfold on_right. cbn.
    destruct (g w2); reflexivity.
  - destruct (Z_lt_dec 1 (_times l)) as [Hlt | Hge].
    2:{ rewrite !while_loop_exit by lia. unfold on_right. cbn.
        destruct (g w2); reflexivity. }
    destruct (g w2) as [[v | err] w2'] eqn:Hg.
    + rewrite (while_loop_returns g _ _ _ _ Hg).
      rewrite (while_loop_returns (on_right g) l (w1, w2) v (w1, w2'));
        [reflexivity | unfold on_right; cbn; rewrite Hg; reflexivity].
    + assert (on_right g (w1, w2) = (Raise err, (w1, w2'))) as Hg'
          by (unfold on_right; cbn; rewrite Hg; reflexivity).
      destruct (isinstance err (_err_class l)) eqn:Hc.
      * destruct (time_sleep (_sleep_time (next_frame l))) as [serr |] eqn:Hs.
        -- rewrite (while_loop_sleep_fails g _ _ _ _ _ Hlt Hg Hc Hs).
           rewrite (while_loop_sleep_fails (on_right g) _ _ _ _ _ Hlt Hg' Hc Hs).
           reflexivity.
        -- rewrite (while_loop_caught g _ _ _ _ Hlt Hg Hc Hs).
           rewrite (while_loop_caught (on_right g) _ _ _ _ Hlt Hg' Hc Hs).
           specialize (IH (next_frame l) w1 w2' ltac:(cbn; lia)).
           destruct (while_loop (on_right g) (next_frame l) (w1, w2')) as [[[r1 x1] t1] l1].
           destruct (while_loop g (next_frame l) w2') as [[[r2 x2] t2] l2].
           cbn [fst snd] in IH |- *. injection IH as -> -> ->. reflexivity.
      * rewrite (while_loop_uncaught g _ _ _ _ Hg Hc).
        rewrite (while_loop_uncaught (on_right g) _ _ _ _ Hg' Hc).
        reflexivity.
Qed.

Lemma iter_next_frame_fields (n : nat) (l : frame num) :
  _times (Nat.iter n next_frame l) = _times l - Z.of_nat n
  /\ _sleep_time (Nat.iter n next_frame l)
     = delay (_sleep_time l) (_backoff_factor l) n
  /\ _backoff_factor (Nat.iter n next_frame l) = _backoff_factor l.
Proof.
  induction n as [| n (Ht & Hs & Hb)]; [cbn; repeat split; lia |].
  change (Nat.iter (S n) next_frame l) with (next_frame (Nat.iter n next_frame l)).
  cbn [next_frame _times _sleep_time _backoff_factor delay].
  rewrite Ht, Hs, Hb. repeat split. lia.
Qed.

(** C8.  One decorator [retry(times, sleep_time, backoff_factor, err_class)]
    wraps two operations that share no state, and the two wrappers, which
    close over the same cells, are called one after the other.  Each call
    gives the result, the trace and the state it gives when it is the only
    call made, and the cells come out of both calls as they were.  When
    both operations keep failing, each call makes [max(1, times)] attempts
    with the sleeps of the policy, the second like the first, although the
    first call counted its own [_times] down to 1 and multiplied its own
    [_sleep_time]: those are copies made on lines 40-43. *)
Theorem policy_reuse_leaks_nothing
  (f : operation A W1) (g : operation B W2) (w1 : W1) (w2 : W2) :
  call_both c (on_left f) (on_right g) (w1, w2)
  = ((fst (fst (retry (cell_times c) (cell_sleep_time c) (cell_backoff_factor c)
                      (cell_err_class c) f w1)),
      snd (retry (cell_times c) (cell_sleep_time c) (cell_backoff_factor c)
                 (cell_err_class c) f w1)),
     (fst (fst (retry (cell_times c) (cell_sleep_time c) (cell_backoff_factor c)
                      (cell_err_class c) g w2)),
      snd (retry (cell_times c) (cell_sleep_time c) (cell_backoff_factor c)
                 (cell_err_class c) g w2)),
     (snd (fst (retry (cell_times c) (cell_sleep_time c) (cell_backoff_factor c)
                      (cell_err_class c) f w1)),
      snd (fst (retry (cell_times c) (cell_sleep_time c) (cell_backoff_factor c)
                      (cell_err_class c) g w2))),
     c)
  /\ (always_fails (cell_err_class c) f w1 ->
      always_fails (cell_err_class c) g w2 ->
      delays_accepted (cell_sleep_time c) (cell_backoff_factor c)
                      (Z.to_nat (cell_times c - 1)) ->
      invocations (snd (retry (cell_times c) (cell_sleep_time c) (cell_backoff_factor c)
                              (cell_err_class c) f w1))
      = Z.to_nat (Z.max 1 (cell_times c))
      /\ invocations (snd (retry (cell_times c) (cell_sleep_time c)
                                 (cell_backoff_factor c) (cell_err_class c) g w2))
         = Z.to_nat (Z.max 1 (cell_times c))
      /\ sleeps (snd (retry (cell_times c) (cell_sleep_time c) (cell_backoff_factor c)
                            (cell_err_class c) f w1))
         = map (delay (cell_sleep_time c) (cell_backoff_factor c))
               (seq 1 (Z.to_nat (cell_times c - 1)))
      /\ sleeps (snd (retry (cell_times c) (cell_sleep_time c) (cell_backoff_factor c)
                            (cell_err_class c) g w2))
         = map (delay (cell_sleep_time c) (cell_backoff_factor c))
               (seq 1 (Z.to_nat (cell_times c - 1)))
      /\ _times (frame_at_exit c f w1) = Z.min 1 (cell_times c)
      /\ _sleep_time (frame_at_exit c f w1)
         = delay (cell_sleep_time c) (cell_backoff_factor c)
                 (Z.to_nat (cell_times c - 1))).
Proof.
  split.
  - unfold call_both, call_wrapper, retry, decorator, wrapper.
    rewrite (while_loop_on_left f (Z.to_nat (cell_times c - 1))) by (cbn; lia).
    rewrite (while_loop_on_right g (Z.to_nat (cell_times c - 1))) by (cbn; lia).
    reflexivity.
  - intros Hf Hg Hok.
    destruct (always_fails_run f _ _ _ _ w1 Hf Hok) as (errs1 & Hlen1 & -> & Hexit).
    destruct (always_fails_run g _ _ _ _ w2 Hg Hok) as (errs2 & Hlen2 & -> & _).
    cbn [snd]. rewrite !invocations_rounds, !sleeps_rounds, Hlen1, Hlen2.
    cbn [invocations filter is_invoked length sleeps]. rewrite !app_nil_r.
    unfold frame_at_exit. rewrite Hexit, Hlen1.
    destruct (iter_next_frame_fields (Z.to_nat (cell_times c - 1))
                (mkFrame (cell_times c) (cell_sleep_time c)
                         (cell_backoff_factor c) (cell_err_class c)))
      as (-> & -> & _).
    cbn [_times _sleep_time _backoff_factor].
    repeat split; lia.
Qed.

End Reuse.

(** ** The first sleep *)

(** C4.  With [times = 2], [sleep_time = 1] and [backoff_factor = 2], an
    operation that raises [IOError] on every call is retried after a sleep
    of 2 seconds: line 47 has multiplied the delay before the first
    attempt was made, so the first sleep is not [sleep_time]. *)
Theorem first_sleep_is_already_multiplied :
  sleeps (snd (retry 2 1 2 "Exception" always_boom 0%nat)) = [1 * 2]
  /\ sleeps (snd (retry 2 1 2 "Exception" always_boom 0%nat)) <> [1].
Proof. split; [reflexivity | discriminate]. Qed.

(** ** The claims at concrete inputs *)

Lemma always_failing_uses_all_attempts_at_3 :
  exists (err : exn) (tr : list (event Z)),
    retry 3 1 1 "Exception" always_boom 0%nat
      = (Raise err, after always_boom (Z.to_nat 3) 0%nat, tr)
    /\ fst (always_boom (after always_boom (Z.to_nat (3 - 1)) 0%nat)) = Raise err
    /\ Z.of_nat (invocations tr) = 3
    /\ Z.of_nat (log_events tr) = 3 - 1.
Proof.
  apply (always_failing_uses_all_attempts always_boom 1 1 "Exception" 3 0%nat).
  - lia.
  - apply int_delays_accepted; lia.
  - intros n. reflexivity.
Defined.

Lemma sleeps_grow_geometrically_at_4 :
  sleeps (snd (retry 4 1 2 "Exception" always_boom 0%nat))
    = map (delay 1 2) (seq 1 (Z.to_nat (4 - 1)))
  /\ (forall (tms s b : Z),
        0 <= s -> 0 <= b ->
        sleeps (snd (retry tms s b "Exception" always_boom 0%nat))
        = map (fun k => s * b ^ Z.of_nat k) (seq 1 (Z.to_nat (tms - 1))))
  /\ sleeps (snd (retry 4 1 2 "Exception" always_boom 0%nat)) = [2; 4; 8].
Proof.
  apply (sleeps_grow_geometrically always_boom 1 2 "Exception" 4 0%nat).
  - intros n. reflexivity.
  - apply int_delays_accepted; lia.
Defined.

Lemma uncaught_failure_is_not_retried_at_3 :
  exists tr : list (event Z),
    retry 3 1 2 "IOError" missing_key 0%nat
      = (Raise (key_error "dfs.datanode.address"), 1%nat, tr)
    /\ tr = [Invoked (Raise (key_error "dfs.datanode.address"))]
    /\ invocations tr = 1%nat
    /\ log_events tr = 0%nat
    /\ sleeps tr = [].
Proof.
  apply (uncaught_failure_is_not_retried missing_key 1 2 "IOError" 3 0%nat 1%nat).
  - reflexivity.
  - reflexivity.
Defined.

Lemma two_failures_then_success_at_flaky :
  exists tr : list (event Z),
    retry 5 1 2 "Exception" (flaky 2) 0%nat = (Return 3, 3%nat, tr)
    /\ tr = retry_round 5 1 2 1 (io_error "not yet")
              ++ retry_round 5 1 2 2 (io_error "not yet")
              ++ [Invoked (Return 3)]
    /\ invocations tr = 3%nat
    /\ log_events tr = 2%nat
    /\ sleeps tr = [2; 4].
Proof.
  exact (two_failures_then_success (flaky 2) 1 2 "Exception"
           0%nat 1%nat 2%nat 3%nat (io_error "not yet") (io_error "not yet") 3
           (int_delays_accepted 1 2 2 ltac:(lia) ltac:(lia))
           eq_refl eq_refl eq_refl eq_refl eq_refl).
Defined.

Lemma no_attempts_left_still_runs_once_at_0 :
  exists tr : list (event Z),
    retry 0 1 2 "Exception" (flaky 0) 0%nat
      = (fst (flaky 0 0%nat), snd (flaky 0 0%nat), tr)
    /\ tr = [Invoked (fst (flaky 0 0%nat))]
    /\ invocations tr = 1%nat
    /\ log_events tr = 0%nat
    /\ sleeps tr = [].
Proof.
  apply (no_attempts_left_still_runs_once (flaky 0) 1 2 "Exception" 0 0%nat).
  lia.
Defined.

(** C7 on an operation that fails once: the text of the log line, and what
    the theorem says of the run. *)
Lemma one_log_line_before_each_sleep_at_flaky :
  log_lines (snd (retry 3 1 2 "Exception" (flaky 1) 0%nat))
  = ["Will retry 2 time(s), caught exception: not yet. Sleeping for 2 sec(s)"%string]
  /\ exists (res : outcome Z) (w' : nat) (tr : list (event Z)) (errs : list exn),
       retry 3 1 2 "Exception" (flaky 1) 0%nat = (res, w', tr)
       /\ tr = retry_rounds 3 1 2 1 errs ++ [Invoked res]
       /\ res = attempt (flaky 1) (length errs) 0%nat
       /\ (forall j, (j < length errs)%nat ->
                     attempt (flaky 1) j 0%nat = Raise (nth j errs (mkExn [] "")))
       /\ log_events tr = length errs
       /\ length (sleeps tr) = length errs
       /\ invocations tr = S (length errs)
       /\ (forall pre post secs,
             tr = pre ++ TimeSleep secs :: post ->
             exists pre' err,
               pre = pre'
                     ++ [Invoked (Raise err);
                         LoggerInfo
                           ("Will retry "
                              ++ fmt_d (3 - Z.of_nat (invocations pre))
                              ++ " time(s), caught exception: " ++ str err
                              ++ ". Sleeping for " ++ fmt_d secs ++ " sec(s)")%string])
       /\ (forall pre post msg,
             tr = pre ++ LoggerInfo msg :: post ->
             exists secs post', post = TimeSleep secs :: post').
Proof.
  split; [reflexivity |].
  exact (one_log_line_before_each_sleep (flaky 1) 3 1 2 "Exception" 0%nat
           (int_delays_accepted 1 2 (Z.to_nat (3 - 1)) ltac:(lia) ltac:(lia))).
Defined.

(** C8 with [times = 3], [sleep_time = 1] and [backoff_factor = 2] on two
    operations that keep failing: three attempts and the sleeps 2 and 4 in
    each call; the first call ends with [_times = 1] and [_sleep_time = 4]
    while the cells still hold 3 and 1. *)
Lemma policy_reuse_leaks_nothing_at_3 :
  snd (call_both (mkCells 3 1 2 "Exception")
         (on_left always_boom) (on_right always_boom) (0%nat, 0%nat))
  = mkCells 3 1 2 "Exception"
  /\ invocations (snd (retry 3 1 2 "Exception" always_boom 0%nat)) = 3%nat
  /\ invocations (snd (retry 3 1 2 "Exception" always_boom 0%nat)) = 3%nat
  /\ sleeps (snd (retry 3 1 2 "Exception" always_boom 0%nat)) = [2; 4]
  /\ sleeps (snd (retry 3 1 2 "Exception" always_boom 0%nat)) = [2; 4]
  /\ _times (frame_at_exit (mkCells 3 1 2 "Exception") always_boom 0%nat) = 1
  /\ _sleep_time (frame_at_exit (mkCells 3 1 2 "Exception") always_boom 0%nat) = 4.
Proof.
  destruct (policy_reuse_leaks_nothing (mkCells 3 1 2 "Exception")
              always_boom always_boom 0%nat 0%nat) as [Hboth Hpolicy].
  split; [rewrite Hboth; reflexivity |].
  exact (Hpolicy (fun n => eq_refl) (fun n => eq_refl)
           (int_delays_accepted 1 2 (Z.to_nat (3 - 1)) ltac:(lia) ltac:(lia))).
Defined.
(** ** The matcher *)

Section Matcher.

Lemma strip_prefix_iff (p s rest : list ascii) :
  strip_prefix p s = Some rest <-> s = p ++ rest.
Proof.
  revert s. induction p as [| a p IH]; intros s; cbn.
  - split; [intros [= ->] | intros ->]; reflexivity.
  - destruct s as [| b s]; [split; discriminate |].
    destruct (Ascii.eqb_spec a b) as [-> | Hne].
    + rewrite IH. split; [intros -> | intros [= ->]]; reflexivity.
    + split; [discriminate | intros [= Hab _]; congruence].
Qed.

Lemma spans_iff (cls : ascii -> bool) (hi : nat) :
  forall s m rest,
    In (m, rest) (spans cls hi s)
    <-> s = m ++ rest /\ forallb cls m = true /\ (length m <= hi)%nat.
Proof.
  induction hi as [| hi IH]; intros s m rest.
  - assert (spans cls 0 s = [([], s)]) as -> by (destruct s; reflexivity).
    cbn. split.
    + intros [[= <- <-] | []]. auto.
    + intros (-> & _ & Hlen). destruct m; [auto | cbn in Hlen; lia].
  - destruct s as [| c s]; cbn [spans].
    + cbn. split.
      * intros [[= <- <-] | []]. cbn. auto with arith.
      * intros (Heq & _ & _). destruct m; [| discriminate].
        cbn in Heq. subst rest. auto.
    + destruct (cls c) eqn:Hc.
      * rewrite in_app_iff, in_map_iff. split.
        -- intros [([m' rest'] & [= <- <-] & Hin) | [[= <- <-] | []]].
           ++ apply IH in Hin as (-> & Hall & Hlen). cbn. rewrite Hc, Hall.
              repeat split. lia.
           ++ cbn. repeat split. lia.
        -- intros (Heq & Hall & Hlen). destruct m as [| c' m].
           ++ cbn in Heq. subst rest. right. left. reflexivity.
           ++ injection Heq as <- ->. cbn in Hall, Hlen.
              apply andb_true_iff in Hall as [_ Hall].
              left. exists (m, rest). split; [reflexivity |].
              apply IH. repeat split; [assumption | lia].
      * cbn. split.
        -- intros [[= <- <-] | []]. cbn. repeat split. lia.
        -- intros (Heq & Hall & _). destruct m as [| c' m].
           ++ cbn in Heq. subst rest. auto.
           ++ injection Heq as <- ->. cbn in Hall. rewrite Hc in Hall. discriminate.
Qed.

Lemma firstn_matched (a rest : list ascii) :
  firstn (length (a ++ rest) - length rest) (a ++ rest) = a.
Proof.
  rewrite length_app, Nat.add_sub.
  rewrite firstn_app, Nat.sub_diag, firstn_all. cbn. apply app_nil_r.
Qed.

(** The matcher finds exactly the matches of the pattern. *)
Lemma rmatch_iff (r : regex) :
  forall s g rest g',
    In (rest, g') (rmatch r s g) <-> exists a, s = a ++ rest /\ matches r a g g'.
Proof.
  induction r as [p | r1 IH1 r2 IH2 | r IH | cls | cls lo hi | n r IH];
    intros s g rest g'; cbn [rmatch].
  - destruct (strip_prefix (list_ascii_of_string p) s) as [rest0 |] eqn:Hp.
    + apply strip_prefix_iff in Hp. subst s. cbn. split.
      * intros [[= <- <-] | []]. eexists. split; [reflexivity | constructor].
      * intros (a & Heq & Hm). inversion Hm; subst.
        apply app_inv_head in Heq. subst. auto.
    + cbn. split; [intros [] |].
      intros (a & Heq & Hm). inversion Hm; subst.
      assert (strip_prefix (list_ascii_of_string p) (list_ascii_of_string p ++ rest)
              = Some rest) as Hs by (apply strip_prefix_iff; reflexivity).
      congruence.
  - rewrite in_flat_map. split.
    + intros ([s1 g1] & Hin1 & Hin2). cbn in Hin2.
      apply IH1 in Hin1 as (a & -> & Hm1). apply IH2 in Hin2 as (b & -> & Hm2).
      exists (a ++ b). rewrite <- app_assoc. split; [reflexivity |].
      econstructor; eassumption.
    + intros (ab & -> & Hm). inversion Hm; subst.
      exists (b ++ rest, g1). split.
      * apply IH1. exists a. rewrite <- app_assoc. auto.
      * cbn. apply IH2. exists b. auto.
  - rewrite in_app_iff. split.
    + intros [Hin | [[= <- <-] | []]].
      * apply IH in Hin as (a & -> & Hm). exists a. split; [reflexivity |].
        constructor. assumption.
      * exists []. split; [reflexivity | apply matches_opt_none].
    + intros (a & -> & Hm). inversion Hm; subst.
      * left. apply IH. eauto.
      * right. left. reflexivity.
  - rewrite in_map_iff. split.
    + intros ([m rest0] & [= <- <-] & Hin). apply spans_iff in Hin as (-> & Hall & _).
      exists m. split; [reflexivity | constructor; assumption].
    + intros (a & -> & Hm). inversion Hm; subst.
      exists (a, rest). split; [reflexivity |]. apply spans_iff.
      repeat split; [assumption |]. rewrite length_app. lia.
  - rewrite in_map_iff. split.
    + intros ([m rest0] & [= <- <-] & Hin). apply filter_In in Hin as [Hin Hlo].
      apply spans_iff in Hin as (-> & Hall & Hhi). cbn in Hlo.
      apply Nat.leb_le in Hlo.
      exists m. split; [reflexivity | constructor; [assumption | lia]].
    + intros (a & -> & Hm). inversion Hm; subst.
      exists (a, rest). split; [reflexivity |]. apply filter_In. split.
      * apply spans_iff. repeat split; [assumption | lia].
      * cbn. apply Nat.leb_le. lia.
  - rewrite in_map_iff. split.
    + intros ([rest0 g0] & [= <- <-] & Hin). cbn [fst snd].
      apply IH in Hin as (a & -> & Hm). exists a. split; [reflexivity |].
      rewrite firstn_matched. constructor. assumption.
    + intros (a & -> & Hm). inversion Hm; subst.
      exists (rest, g'0). cbn [fst snd]. rewrite firstn_matched.
      split; [reflexivity |]. apply IH. eauto.
Qed.

(** [search] answers with a match that starts somewhere in the text. *)
Lemma search_some (r : regex) (s : list ascii) (m : groups) :
  search r s = Some m ->
  exists before a rest, s = before ++ a ++ rest /\ matches r a [] m.
Proof.
  induction s as [| c s IH]; cbn [search].
  - destruct (rmatch r [] []) as [| [rest m0] ms] eqn:Hr; [discriminate |].
    intros [= <-].
    assert (In (rest, m0) (rmatch r [] [])) as Hin by (rewrite Hr; left; reflexivity).
    apply rmatch_iff in Hin as (a & Heq & Hm). exists [], a, rest. auto.
  - destruct (rmatch r (c :: s) []) as [| [rest m0] ms] eqn:Hr.
    + intros Hs. destruct (IH Hs) as (before & a & rest & -> & Hm).
      exists (c :: before), a, rest. auto.
    + intros [= <-].
      assert (In (rest, m0) (rmatch r (c :: s) [])) as Hin by (rewrite Hr; left; reflexivity).
      apply rmatch_iff in Hin as (a & Heq & Hm). exists [], a, rest. auto.
Qed.

(** [search] answers [None] only when no match starts anywhere. *)
Lemma search_none (r : regex) (s : list ascii) :
  search r s = None ->
  forall before a rest m, s = before ++ a ++ rest -> ~ matches r a [] m.
Proof.
  induction s as [| c s IH]; cbn [search]; intros Hs before a rest m Heq Hm.
  - destruct (rmatch r [] []) as [| [rest0 m0] ms] eqn:Hr; [| discriminate].
    destruct before; [| discriminate]. cbn in Heq.
    assert (In (rest, m) (rmatch r [] [])) as Hin by (apply rmatch_iff; eauto).
    rewrite Hr in Hin. exact Hin.
  - destruct (rmatch r (c :: s) []) as [| [rest0 m0] ms] eqn:Hr; [| discriminate].
    destruct before as [| c' before].
    + cbn in Heq.
      assert (In (rest, m) (rmatch r (c :: s) [])) as Hin by (apply rmatch_iff; eauto).
      rewrite Hr in Hin. exact Hin.
    + injection Heq as _ Heq. exact (IH Hs before a rest m Heq Hm).
Qed.

End Matcher.

(** ** The claim about [get_port] *)

Section GetPort.

Ltac invert_matches :=
  repeat match goal with
         | H : matches (Lit _) _ _ _ |- _ => inversion H; subst; clear H
         | H : matches (Cat _ _) _ _ _ |- _ => inversion H; subst; clear H
         | H : matches (Opt _) _ _ _ |- _ => inversion H; subst; clear H
         | H : matches (Star _) _ _ _ |- _ => inversion H; subst; clear H
         | H : matches (Repeat _ _ _) _ _ _ |- _ => inversion H; subst; clear H
         | H : matches (Group _ _) _ _ _ |- _ => inversion H; subst; clear H
         end.

(** What a match of the pattern of line 57 looks like. *)
Lemma port_pattern_match (a : list ascii) (m : groups) :
  matches port_pattern a [] m ->
  exists (scheme : string) (host port : list ascii),
    a = list_ascii_of_string scheme ++ host ++ ":"%char :: port
    /\ (scheme = "" \/ scheme = "http://" \/ scheme = "https://")%string
    /\ forallb host_char host = true
    /\ forallb is_digit port = true
    /\ (1 <= length port <= 5)%nat
    /\ m = [(2%nat, port); (1%nat, host)].
Proof.
  unfold port_pattern. intros Hm. invert_matches.
  - exists "https://"%string. do 2 eexists.
    split; [reflexivity |]. repeat split; auto; lia.
  - exists "http://"%string. do 2 eexists.
    split; [reflexivity |]. repeat split; auto; lia.
  - exists ""%string. do 2 eexists.
    split; [reflexivity |]. repeat split; auto; lia.
Qed.

(** Every text of the form scheme, host, colon, port is matched. *)
Lemma port_pattern_matches (scheme : string) (host port : list ascii) :
  (scheme = "" \/ scheme = "http://" \/ scheme = "https://")%string ->
  forallb host_char host = true ->
  forallb is_digit port = true ->
  (1 <= length port <= 5)%nat ->
  matches port_pattern (list_ascii_of_string scheme ++ host ++ ":"%char :: port)
          [] [(2%nat, port); (1%nat, host)].
Proof.
  intros Hs Hhost Hport Hlen. unfold port_pattern.
  apply (matches_cat _ _ _ _ [] [] _).
  - destruct Hs as [-> | [-> | ->]].
    + apply matches_opt_none.
    + apply matches_opt_some.
      change (list_ascii_of_string "http://")
        with (list_ascii_of_string "http" ++ [] ++ list_ascii_of_string "://").
      apply (matches_cat _ _ _ _ [] [] _); [constructor |].
      apply (matches_cat _ _ _ _ [] [] _); [apply matches_opt_none | constructor].
    + apply matches_opt_some.
      change (list_ascii_of_string "https://")
        with (list_ascii_of_string "http" ++ list_ascii_of_string "s"
                ++ list_ascii_of_string "://").
      apply (matches_cat _ _ _ _ [] [] _); [constructor |].
      apply (matches_cat _ _ _ _ [] [] _); [| constructor].
      apply matches_opt_some. constructor.
  - apply (matches_cat _ _ _ _ [] [(1%nat, host)] _).
    + apply matches_group. apply matches_star. exact Hhost.
    + change (":"%char :: port) with (list_ascii_of_string ":" ++ port).
      apply (matches_cat _ _ _ _ _ [(1%nat, host)] _); [constructor |].
      apply matches_group. apply matches_repeat; assumption.
Qed.

Lemma is_digit_range (c : ascii) :
  is_digit c = true -> 0 <= Z.of_nat (nat_of_ascii c) - 48 <= 9.
Proof.
  unfold is_digit. cbv zeta. intros H.
  apply andb_true_iff in H as [Hlo Hhi].
  apply Nat.leb_le in Hlo, Hhi. lia.
Qed.

Lemma decimal_from (ds : list ascii) :
  forallb is_digit ds = true ->
  forall acc, 0 <= acc ->
    0 <= fold_left (fun acc c => 10 * acc + (Z.of_nat (nat_of_ascii c) - 48)) ds acc
      < (acc + 1) * 10 ^ Z.of_nat (length ds).
Proof.
  induction ds as [| c ds IH]; intros Hall acc Hacc.
  - cbn. lia.
  - cbn [forallb] in Hall. apply andb_true_iff in Hall as [Hc Hall].
    pose proof (is_digit_range c Hc) as Hd.
    cbn [fold_left length].
    specialize (IH Hall (10 * acc + (Z.of_nat (nat_of_ascii c) - 48)) ltac:(lia)).
    rewrite Nat2Z.inj_succ, Z.pow_succ_r by lia.
    assert (0 < 10 ^ Z.of_nat (length ds)) by (apply Z.pow_pos_nonneg; lia).
    nia.
Qed.

(** A run of at most five digits reads as a number below 100000. *)
Lemma decimal_range (ds : list ascii) :
  forallb is_digit ds = true ->
  (length ds <= 5)%nat ->
  0 <= decimal ds < 100000.
Proof.
  intros Hall Hlen. unfold decimal.
  pose proof (decimal_from ds Hall 0 ltac:(lia)) as H.
  assert (10 ^ Z.of_nat (length ds) <= 10 ^ 5) by (apply Z.pow_le_mono_r; lia).
  change (10 ^ 5) with 100000 in *. lia.
Qed.

(** What [get_port] does with an address that is a string. *)
Lemma get_port_cases (a : string) :
  (~ has_host_port a /\ get_port (Some a) = Return None)
  \/ (exists (m : groups) (before : list ascii) (scheme : string)
             (host port rest : list ascii),
        search port_pattern (list_ascii_of_string a) = Some m
        /\ group m 2 = Some port
        /\ list_ascii_of_string a
           = before ++ list_ascii_of_string scheme ++ host ++ ":"%char :: port ++ rest
        /\ (scheme = "" \/ scheme = "http://" \/ scheme = "https://")%string
        /\ forallb host_char host = true
        /\ forallb is_digit port = true
        /\ (1 <= length port <= 5)%nat
        /\ get_port (Some a) = Return (Some (decimal port))).
Proof.
  unfold get_port.
  destruct (search port_pattern (list_ascii_of_string a)) as [m |] eqn:Hs.
  - right. apply search_some in Hs as (before & txt & rest & Heq & Hm).
    apply port_pattern_match in Hm
      as (scheme & host & port & -> & Hscheme & Hhost & Hport & Hlen & ->).
    exists [(2%nat, port); (1%nat, host)], before, scheme, host, port, rest.
    split; [reflexivity |]. split; [reflexivity |].
    split; [rewrite Heq, <- !app_assoc; reflexivity |].
    repeat (split; [assumption |]).
    cbn [group Nat.eqb int]. rewrite Hport.
    destruct port; [cbn in Hlen; lia | reflexivity].
  - left. split; [| reflexivity].
    intros (before & scheme & host & port & rest & Heq & Hscheme & Hhost & Hport & Hlen).
    apply (search_none _ _ Hs before
             (list_ascii_of_string scheme ++ host ++ ":"%char :: port) rest
             [(2%nat, port); (1%nat, host)]).
    + rewrite Heq, <- !app_assoc. reflexivity.
    + apply port_pattern_matches; assumption.
Qed.

Lemma decimal_acc (ds : list ascii) :
  forall acc,
    fold_left (fun acc c => 10 * acc + (Z.of_nat (nat_of_ascii c) - 48)) ds acc
    = acc * 10 ^ Z.of_nat (length ds) + digits_value ds.
Proof.
  induction ds as [| c ds IH]; intros acc; [cbn; lia |].
  cbn [fold_left digits_value length]. rewrite IH.
  rewrite Nat2Z.inj_succ, Z.pow_succ_r by lia. ring.
Qed.

(** [int] reads a run of digits as the number it spells. *)
Lemma decimal_digits_value (ds : list ascii) : decimal ds = digits_value ds.
Proof. unfold decimal. rewrite decimal_acc. lia. Qed.

(** C10.  [get_port(None)] is [None]; so is [get_port] of an address with
    no [host:port] in it.  On any other address, [get_port] returns the
    number that the digits of group 2 of the match spell, and these are the
    1 to 5 digits of a [host:port] of the address.  Whatever the argument,
    [get_port] raises nothing and returns [None] or an integer from 0 to
    99999. *)
Theorem get_port_none_or_port :
  get_port None = Return None
  /\ (forall a : string, ~ has_host_port a -> get_port (Some a) = Return None)
  /\ (forall a : string,
        has_host_port a ->
        exists (m : groups) (before : list ascii) (scheme : string)
               (host port rest : list ascii),
          search port_pattern (list_ascii_of_string a) = Some m
          /\ group m 2 = Some port
          /\ list_ascii_of_string a
             = before ++ list_ascii_of_string scheme ++ host ++ ":"%char :: port ++ rest
          /\ (scheme = "" \/ scheme = "http://" \/ scheme = "https://")%string
          /\ forallb host_char host = true
          /\ forallb is_digit port = true
          /\ (1 <= length port <= 5)%nat
          /\ get_port (Some a) = Return (Some (digits_value port)))
  /\ (forall address : option string,
        get_port address = Return None
        \/ exists n : Z, get_port address = Return (Some n) /\ 0 <= n < 100000).
Proof.
  split; [reflexivity |]. split; [| split].
  - intros a Hno. destruct (get_port_cases a) as [[_ Hnone] | Hsome]; [exact Hnone |].
    exfalso. apply Hno.
    destruct Hsome as (m & before & scheme & host & port & rest
                       & _ & _ & Heq & Hscheme & Hhost & Hport & Hlen & _).
    exists before, scheme, host, port, rest. auto.
  - intros a Hhas. destruct (get_port_cases a) as [[Hno _] | Hsome]; [contradiction |].
    destruct Hsome as (m & before & scheme & host & port & rest
                       & Hs & Hg & Heq & Hscheme & Hhost & Hport & Hlen & Hget).
    exists m, before, scheme, host, port, rest.
    rewrite <- decimal_digits_value. auto 10.
  - intros [a |]; [| left; reflexivity].
    destruct (get_port_cases a) as [[_ Hnone] | Hsome]; [left; exact Hnone |].
    destruct Hsome as (m & before & scheme & host & port & rest
                       & _ & _ & _ & _ & _ & Hport & Hlen & Hget).
    right. exists (decimal port). split; [exact Hget |].
    apply decimal_range; [exact Hport | lia].
Qed.

End GetPort.

(** ** [get_port] on addresses of the kind hdfs-site holds *)

Example get_port_datanode_address :
  get_port (Some "0.0.0.0:1019"%string) = Return (Some 1019).
Proof. reflexivity. Qed.

Example get_port_https_address :
  get_port (Some "https://c6401.ambari.apache.org:50475"%string) = Return (Some 50475).
Proof. reflexivity. Qed.

Example get_port_six_digits :
  get_port (Some "0.0.0.0:123456"%string) = Return (Some 12345).
Proof. reflexivity. Qed.

Example get_port_no_port :
  get_port (Some "localhost"%string) = Return None.
Proof. reflexivity. Qed.

(** C10 on the address of a datanode, on a name without a port and on a
    missing address. *)
Lemma get_port_none_or_port_at_datanode :
  get_port (Some "0.0.0.0:1019"%string) = Return (Some 1019)
  /\ get_port (Some "localhost"%string) = Return None
  /\ get_port None = Return None.
Proof.
  destruct get_port_none_or_port as (Hnone & Hno & Hhas & Hany).
  split; [| split; [| exact Hnone]].
  - destruct (Hhas "0.0.0.0:1019"%string) as (m & before & scheme & host & port & rest
                                               & Hs & Hg & _ & _ & _ & _ & _ & Hget).
    { exists [], ""%string, (list_ascii_of_string "0.0.0.0"),
        (list_ascii_of_string "1019"), [].
      repeat split; [left; reflexivity | cbn; lia | cbn; lia]. }
    rewrite Hget. vm_compute in Hs. injection Hs as <-.
    vm_compute in Hg. injection Hg as <-. reflexivity.
  - destruct (Hany (Some "localhost"%string)) as [Hnull | (n & Hn & _)]; [exact Hnull |].
    vm_compute in Hn. discriminate Hn.
Defined.

(** * Further properties *)

(** ** [retry] on an arbitrary operation *)

Section RetryBudget.
Context {num : Type} `{Number num} {A W : Type}.
Variable function : operation A W.
Variables (times : Z) (sleep_time backoff_factor : num) (err_class : string).

Lemma caught_not_escapes (r : outcome A) :
  caught err_class r -> ~ escapes err_class r.
Proof. destruct r as [v | err]; cbn; [tauto | congruence]. Qed.

(** The attempts that the shape lists as failures were caught. *)
Lemma shape_attempt_caught (w : W) (errs : list exn) (j : nat) :
  Forall (fun err => isinstance err err_class = true) errs ->
  (forall i, (i < length errs)%nat ->
             attempt function i w = Raise (nth i errs (mkExn [] ""))) ->
  (j < length errs)%nat ->
  caught err_class (attempt function j w).
Proof.
  intros Hall Hnth Hj. rewrite (Hnth j Hj). cbn.
  rewrite Forall_forall in Hall. apply Hall. apply nth_In. exact Hj.
Qed.

(** The trace of a call: rounds and a last call, or rounds and a last
    failed call whose log line is followed by a sleep that raises. *)
Lemma retry_trace (w : W) :
  exists (errs : list exn) (tl : list (event A)),
    snd (retry times sleep_time backoff_factor err_class function w)
    = retry_rounds times sleep_time backoff_factor 1 errs ++ tl
    /\ ((exists r, tl = [Invoked r] /\ (length errs <= Z.to_nat (times - 1))%nat)
        \/ (exists e msg,
               tl = [Invoked (Raise e); LoggerInfo msg]
               /\ (S (length errs) <= Z.to_nat (times - 1))%nat
               /\ ~ delays_accepted sleep_time backoff_factor (S (length errs)))).
Proof.
  destruct (while_loop_shape function (Z.to_nat (times - 1))
              (mkFrame times sleep_time backoff_factor err_class) w)
    as (errs & _ & _ & Hlen & Hcases); [cbn; lia |].
  cbn [_times _sleep_time _backoff_factor _err_class] in *.
  unfold retry, decorator, wrapper.
  destruct Hcases as [(Hrun & _) | (errs' & e & serr & Herrs & _ & Hfail & Hrun)].
  - exists errs. eexists. rewrite Hrun. cbn [snd]. split; [reflexivity |].
    left. eauto.
  - exists errs'. eexists. rewrite Hrun. cbn [snd]. split; [reflexivity |].
    right. subst errs. rewrite length_app in Hlen, Hfail. cbn [length] in Hlen, Hfail.
    replace (length errs' + 1)%nat with (S (length errs')) in Hlen, Hfail by lia.
    do 2 eexists. split; [reflexivity |]. split; [exact Hlen |].
    intros Hok. rewrite (Hok (S (length errs'))) in Hfail by lia. discriminate.
Qed.

(** X1.  Whatever the operation does and whatever the delays are, the
    wrapper calls the operation at least once and at most [max(1, times)]
    times, never logs more often than it calls and never sleeps more often
    than it logs.  When [time.sleep] accepts the delays, it logs and sleeps
    exactly once per call but the last. *)
Theorem call_count_within_budget (w : W) :
  (1 <= invocations (snd (retry times sleep_time backoff_factor err_class function w)))%nat
  /\ Z.of_nat (invocations (snd (retry times sleep_time backoff_factor err_class function w)))
     <= Z.max 1 times
  /\ (log_events (snd (retry times sleep_time backoff_factor err_class function w))
      <= invocations (snd (retry times sleep_time backoff_factor err_class function w)))%nat
  /\ (length (sleeps (snd (retry times sleep_time backoff_factor err_class function w)))
      <= log_events (snd (retry times sleep_time backoff_factor err_class function w)))%nat
  /\ (delays_accepted sleep_time backoff_factor (Z.to_nat (times - 1)) ->
      S (log_events (snd (retry times sleep_time backoff_factor err_class function w)))
      = invocations (snd (retry times sleep_time backoff_factor err_class function w))
      /\ length (sleeps (snd (retry times sleep_time backoff_factor err_class function w)))
         = log_events (snd (retry times sleep_time backoff_factor err_class function w))).
Proof.
  destruct (retry_trace w) as (errs & tl & -> & Hcases).
  rewrite invocations_rounds, log_events_rounds, sleeps_rounds,
    length_app, length_map, length_seq.
  destruct Hcases as [(r & -> & Hlen) | (e & msg & -> & Hlen & Hbad)]; cbn.
  - do 4 (split; [lia |]). intros _. split; lia.
  - do 4 (split; [lia |]). intros Hok. exfalso. apply Hbad.
    apply (delays_accepted_le _ _ (Z.to_nat (times - 1))); [lia | exact Hok].
Qed.

(** X2.  Whatever the operation does, sleep number [k] of a call of the
    wrapper lasts [sleep_time] multiplied [k] times by [backoff_factor];
    when [time.sleep] accepts the delays there is one such sleep for every
    call but the last. *)
Theorem sleeps_follow_the_backoff (w : W) :
  sleeps (snd (retry times sleep_time backoff_factor err_class function w))
  = map (delay sleep_time backoff_factor)
        (seq 1 (length (sleeps
                          (snd (retry times sleep_time backoff_factor err_class
                                      function w)))))
  /\ (delays_accepted sleep_time backoff_factor (Z.to_nat (times - 1)) ->
      sleeps (snd (retry times sleep_time backoff_factor err_class function w))
      = map (delay sleep_time backoff_factor)
            (seq 1 (invocations
                      (snd (retry times sleep_time backoff_factor err_class
                                  function w)) - 1))).
Proof.
  destruct (retry_trace w) as (errs & tl & -> & Hcases).
  rewrite invocations_rounds, sleeps_rounds.
  destruct Hcases as [(r & -> & Hlen) | (e & msg & -> & Hlen & Hbad)]; cbn [sleeps].
  - rewrite app_nil_r, length_map, length_seq. split; [reflexivity |].
    intros _. cbn. replace (length errs + 1 - 1)%nat with (length errs) by lia.
    reflexivity.
  - rewrite app_nil_r, length_map, length_seq. split; [reflexivity |].
    intros Hok. exfalso. apply Hbad.
    apply (delays_accepted_le _ _ (Z.to_nat (times - 1))); [lia | exact Hok].
Qed.

(** X3.  If the first [k] calls raise failures that are caught, the [k]
    delays that follow them are accepted by [time.sleep], call number
    [k + 1] returns or raises something that is not caught, and [k]
    retries fit in the budget ([k <= times - 1], or [k = 0]), then the
    wrapper stops there: it gives the outcome of call [k + 1] after exactly
    [k + 1] calls and [k] sleeps. *)
Theorem stops_at_first_escape (k : nat) (w : W) :
  (forall j, (j < k)%nat -> caught err_class (attempt function j w)) ->
  delays_accepted sleep_time backoff_factor k ->
  escapes err_class (attempt function k w) ->
  (k <= Z.to_nat (times - 1))%nat ->
  exists tr : list (event A),
    retry times sleep_time backoff_factor err_class function w
      = (attempt function k w, after function (S k) w, tr)
    /\ invocations tr = S k
    /\ log_events tr = k
    /\ sleeps tr = map (delay sleep_time backoff_factor) (seq 1 k).
Proof.
  intros Hfail Hok Hesc Hk.
  destruct (while_loop_shape function (Z.to_nat (times - 1))
              (mkFrame times sleep_time backoff_factor err_class) w)
    as (errs & Hall & Hnth & Hlen & Hcases); [cbn; lia |].
  cbn [_times _sleep_time _backoff_factor _err_class] in *.
  assert (~ (k < length errs)%nat) as Hnot_more.
  { intros Hgt. apply (caught_not_escapes (attempt function k w)); [| exact Hesc].
    apply (shape_attempt_caught w errs k Hall Hnth Hgt). }
  destruct Hcases as [(Hrun & _ & Hstop & _) | (errs' & e & serr & Herrs & _ & Hbad & _)].
  - assert (length errs = k) as Hn.
    { destruct (Nat.lt_trichotomy (length errs) k) as [Hlt | [Heq | Hgt]];
        [| exact Heq | contradiction].
      exfalso. apply (caught_not_escapes _ (Hfail _ Hlt)). apply Hstop. lia. }
    unfold retry, decorator, wrapper. rewrite Hrun, Hn. eexists. split; [reflexivity |].
    rewrite invocations_rounds, log_events_rounds, sleeps_rounds, Hn. cbn.
    rewrite app_nil_r. repeat split; lia.
  - exfalso. rewrite Hok in Hbad; [discriminate |].
    subst errs. rewrite length_app in *. cbn [length] in *. lia.
Qed.

(** X4.  If [times >= 1], [time.sleep] accepts the delays and the first
    [times - 1] calls raise failures that are caught, the outcome of call
    number [times] is the outcome of the wrapper, be it a value, a caught
    failure or any other failure; [times] calls are made and no more. *)
Theorem last_attempt_decides (w : W) :
  1 <= times ->
  delays_accepted sleep_time backoff_factor (Z.to_nat (times - 1)) ->
  (forall j, (j < Z.to_nat (times - 1))%nat -> caught err_class (attempt function j w)) ->
  exists tr : list (event A),
    retry times sleep_time backoff_factor err_class function w
      = (attempt function (Z.to_nat (times - 1)) w, after function (Z.to_nat times) w, tr)
    /\ Z.of_nat (invocations tr) = times
    /\ Z.of_nat (log_events tr) = times - 1.
Proof.
  intros Ht Hok Hfail.
  destruct (retry_shape function sleep_time backoff_factor err_class times w Hok)
    as (errs & Hrun & _ & _ & Hlen & Hstop & _).
  assert (length errs = Z.to_nat (times - 1)) as Hn.
  { destruct (Nat.eq_dec (length errs) (Z.to_nat (times - 1))) as [Heq | Hne]; [exact Heq |].
    exfalso. apply (caught_not_escapes (attempt function (length errs) w)).
    - apply Hfail. lia.
    - apply Hstop. lia. }
  rewrite Hn in Hrun.
  replace (S (Z.to_nat (times - 1))) with (Z.to_nat times) in Hrun by lia.
  eexists. split; [exact Hrun |].
  rewrite invocations_rounds, log_events_rounds, Hn. cbn. lia.
Qed.

(** X15.  A sleep that raises ends the call.  If attempts are left
    ([times > 1]), the first call raises a failure that is caught and
    [time.sleep] refuses the first delay, [sleep_time * backoff_factor],
    then the wrapper has called the function once and written one log
    line, and what [time.sleep] raised comes out of the wrapper: raised
    inside the [except] block, it is not caught there, whatever its class,
    and no attempt follows. *)
Theorem refused_sleep_ends_the_call (w w' : W) (err sleep_err : exn) :
  1 < times ->
  function w = (Raise err, w') ->
  isinstance err err_class = true ->
  time_sleep (num_mul sleep_time backoff_factor) = Some sleep_err ->
  retry times sleep_time backoff_factor err_class function w
  = (Raise sleep_err, w',
     [Invoked (Raise err);
      LoggerInfo ("Will retry " ++ fmt_d (times - 1)
                    ++ " time(s), caught exception: " ++ str err
                    ++ ". Sleeping for "
                    ++ num_fmt_d (num_mul sleep_time backoff_factor)
                    ++ " sec(s)")%string]).
Proof.
  intros Hlt Hf Hc Hs. unfold retry, decorator, wrapper.
  rewrite (while_loop_sleep_fails function
             (mkFrame times sleep_time backoff_factor err_class) w err sleep_err w'
             Hlt Hf Hc Hs).
  reflexivity.
Qed.

End RetryBudget.

(** ** The default backoff *)

Section DefaultBackoff.
Context {A W : Type}.
Variable function : operation A W.
Variables (times sleep_time : Z) (err_class : string).

Lemma total_sleep_constant (n : nat) :
  forall k, fold_right Z.add 0 (map (fun _ : nat => sleep_time) (seq k n))
            = Z.of_nat n * sleep_time.
Proof.
  induction n as [| n IH]; intros k; [reflexivity |].
  cbn [seq map fold_right]. rewrite IH. lia.
Qed.

(** X5.  With [backoff_factor = 1], the default, every sleep lasts
    [sleep_time]; when [sleep_time] is not negative the wrapper sleeps at
    most [(max(1, times) - 1) * sleep_time] seconds in all. *)
Theorem default_backoff_sleeps_are_constant (w : W) :
  0 <= sleep_time ->
  Forall (fun secs => secs = sleep_time)
         (sleeps (snd (retry times sleep_time 1 err_class function w)))
  /\ total_sleep (snd (retry times sleep_time 1 err_class function w))
     = Z.of_nat (log_events (snd (retry times sleep_time 1 err_class function w)))
       * sleep_time
  /\ total_sleep (snd (retry times sleep_time 1 err_class function w))
     <= (Z.max 1 times - 1) * sleep_time.
Proof.
  intros Hs. unfold total_sleep.
  destruct (retry_shape function sleep_time 1 err_class times w
              (int_delays_accepted sleep_time 1 _ Hs ltac:(lia)))
    as (errs & -> & _ & _ & Hlen & _).
  cbn [snd]. rewrite sleeps_rounds, log_events_rounds. cbn [sleeps log_events filter is_log length].
  rewrite app_nil_r, Nat.add_0_r.
  assert (map (delay sleep_time 1) (seq 1 (length errs))
          = map (fun _ : nat => sleep_time) (seq 1 (length errs))) as ->.
  { apply map_ext. intros k. rewrite int_delay, Z.pow_1_l by lia. lia. }
  split; [| split].
  - apply Forall_forall. intros secs Hin. apply in_map_iff in Hin as (k & <- & _).
    reflexivity.
  - apply total_sleep_constant.
  - rewrite total_sleep_constant. nia.
Qed.

End DefaultBackoff.

(** ** One decorator on top of another *)

Section Stacked.
Context {num : Type} `{Number num} {A W : Type}.
Variable function : operation A W.
Variables (inner_times : Z) (inner_sleep inner_backoff : num) (inner_class : string).
Variables (outer_times : Z) (outer_sleep outer_backoff : num) (outer_class : string).

Lemma after_add (a b : nat) (w : W) :
  after function (a + b) w = after function b (after function a w).
Proof.
  revert w. induction a as [| a IH]; intros w; [reflexivity |].
  cbn [Nat.add after]. apply IH.
Qed.

Lemma attempt_after (a b : nat) (w : W) :
  attempt function b (after function a w) = attempt function (a + b) w.
Proof. unfold attempt. rewrite after_add. reflexivity. Qed.

Lemma always_fails_after (cls : string) (a : nat) (w : W) :
  always_fails cls function w -> always_fails cls function (after function a w).
Proof. intros Hfails n. rewrite attempt_after. apply Hfails. Qed.

Lemma invocations_app (tr1 tr2 : list (@event num A)) :
  invocations (tr1 ++ tr2) = (invocations tr1 + invocations tr2)%nat.
Proof. unfold invocations. rewrite filter_app, length_app. reflexivity. Qed.

Lemma log_events_app (tr1 tr2 : list (@event num A)) :
  log_events (tr1 ++ tr2) = (log_events tr1 + log_events tr2)%nat.
Proof. unfold log_events. rewrite filter_app, length_app. reflexivity. Qed.

(** The inner wrapper, as the outer one sees it, and the calls that one
    call of it makes on an operation that keeps failing. *)
Local Abbreviation inner :=
  (as_operation (retry inner_times inner_sleep inner_backoff inner_class function)).
Local Abbreviation inner_calls := (Z.to_nat (Z.max 1 inner_times)).

Hypothesis inner_delays :
  delays_accepted inner_sleep inner_backoff (Z.to_nat (inner_times - 1)).

Lemma inner_call (w : W) (journal : list (event A)) :
  always_fails inner_class function w ->
  exists tr : list (event A),
    inner (w, journal)
      = (attempt function (inner_calls - 1) w,
         (after function inner_calls w, journal ++ tr))
    /\ invocations tr = inner_calls
    /\ log_events tr = (inner_calls - 1)%nat.
Proof.
  intros Hall. unfold as_operation. cbn [fst snd].
  destruct (always_fails_run function inner_sleep inner_backoff inner_class
              inner_times w Hall inner_delays) as (errs & Hlen & -> & _).
  assert (inner_calls = S (length errs)) as -> by lia.
  eexists. cbn [Nat.sub]. rewrite Nat.sub_0_r.
  split; [reflexivity |].
  rewrite invocations_rounds, log_events_rounds. cbn. split; lia.
Qed.

Lemma inner_after (k : nat) :
  forall (w : W) (journal : list (event A)),
    always_fails inner_class function w ->
    exists journal' : list (event A),
      after inner k (w, journal) = (after function (k * inner_calls) w, journal')
      /\ invocations journal' = (invocations journal + k * inner_calls)%nat
      /\ log_events journal' = (log_events journal + k * (inner_calls - 1))%nat.
Proof.
  induction k as [| k IH]; intros w journal Hall.
  - exists journal. cbn. repeat split; lia.
  - destruct (inner_call w journal Hall) as (tr & Hcall & Hinv & Hlog).
    cbn [after]. rewrite Hcall. cbn [snd].
    destruct (IH (after function inner_calls w) (journal ++ tr)
                 (always_fails_after _ _ _ Hall)) as (journal' & Hafter & Hinv' & Hlog').
    exists journal'. rewrite Hafter, <- after_add.
    rewrite Hinv', Hlog', invocations_app, log_events_app, Hinv, Hlog.
    repeat split; lia.
Qed.

Lemma inner_attempt (k : nat) (w : W) :
  always_fails inner_class function w ->
  attempt inner k (w, []) = attempt function (k * inner_calls + (inner_calls - 1)) w.
Proof.
  intros Hall. unfold attempt at 1.
  destruct (inner_after k w [] Hall) as (journal' & -> & _).
  destruct (inner_call (after function (k * inner_calls) w) journal'
              (always_fails_after _ _ _ Hall)) as (tr & -> & _).
  cbn [fst]. apply attempt_after.
Qed.

(** X6.  Two [retry] decorators stacked on a function that keeps raising
    failures both catch, with delays that [time.sleep] accepts: the outer
    wrapper calls the inner one [max(1, outer_times)] times, each of which
    calls the function [max(1, inner_times)] times, so the function runs
    as many times as the product, and the failure of its last call is what
    comes out. *)
Theorem stacked_retries_multiply (w : W) :
  delays_accepted outer_sleep outer_backoff (Z.to_nat (outer_times - 1)) ->
  always_fails inner_class function w ->
  always_fails outer_class function w ->
  exists (tr : list (event A)) (journal : list (event A)),
    retry outer_times outer_sleep outer_backoff outer_class inner (w, [])
      = (attempt function (Z.to_nat (Z.max 1 outer_times) * inner_calls - 1) w,
         (after function (Z.to_nat (Z.max 1 outer_times) * inner_calls) w, journal),
         tr)
    /\ invocations tr = Z.to_nat (Z.max 1 outer_times)
    /\ invocations journal = (Z.to_nat (Z.max 1 outer_times) * inner_calls)%nat
    /\ log_events journal = (Z.to_nat (Z.max 1 outer_times) * (inner_calls - 1))%nat.
Proof.
  intros Hok Hin Hout.
  assert (always_fails outer_class inner (w, [])) as Hall.
  { intros k. rewrite (inner_attempt k w Hin). apply Hout. }
  destruct (always_fails_run inner outer_sleep outer_backoff outer_class
              outer_times (w, []) Hall Hok) as (errs & Hlen & -> & _).
  assert (Z.to_nat (Z.max 1 outer_times) = S (length errs)) as -> by lia.
  destruct (inner_after (S (length errs)) w [] Hin) as (journal & -> & Hinv & Hlog).
  exists (retry_rounds outer_times outer_sleep outer_backoff 1 errs
            ++ [Invoked (attempt inner (length errs) (w, []))]), journal.
  rewrite (inner_attempt (length errs) w Hin).
  assert (1 <= inner_calls)%nat as Hpos by lia.
  replace (S (length errs) * inner_calls - 1)%nat
    with (length errs * inner_calls + (inner_calls - 1))%nat by lia.
  split; [reflexivity |].
  rewrite invocations_rounds. split; [cbn; lia |].
  split; [exact Hinv | exact Hlog].
Qed.

End Stacked.

(** ** What a log line promises *)

Section LogCountdown.
Context {num : Type} `{Number num} {A W : Type}.
Variable function : operation A W.
Variables (times : Z) (sleep_time backoff_factor : num) (err_class : string).

Lemma log_line_of_round (errs : list exn) (r : outcome A) :
  forall (k : nat) (pre post : list (event A)) (msg : string),
    retry_rounds times sleep_time backoff_factor k errs ++ [Invoked r]
      = pre ++ LoggerInfo msg :: post ->
    (1 <= invocations pre <= length errs)%nat
    /\ exists (err : exn) (post' : list (event A)),
         msg = log_message
                 (times - Z.of_nat k - Z.of_nat (invocations pre) + 1) err
                 (delay sleep_time backoff_factor (k + invocations pre - 1))
         /\ post = TimeSleep (delay sleep_time backoff_factor (k + invocations pre - 1))
                     :: post'.
Proof.
  induction errs as [| e errs IH]; intros k pre post msg Heq.
  - destruct pre as [| a [| b pre]]; cbn in Heq; discriminate.
  - cbn [retry_rounds retry_round app] in Heq.
    destruct pre as [| a [| b [| c pre]]]; cbn in Heq; try discriminate.
    + injection Heq as Ha Hmsg Hpost. subst a msg post.
      split; [cbn; lia |]. exists e. eexists. cbn.
      replace (times - Z.of_nat k - 1 + 1) with (times - Z.of_nat k) by lia.
      replace (k + 1 - 1)%nat with k by lia.
      split; reflexivity.
    + injection Heq as Ha Hb Hc Hrest. subst a b c.
      destruct (IH (S k) pre post msg Hrest) as (Hle & err & post' & -> & ->).
      unfold invocations in *. cbn [filter is_invoked length].
      split; [lia |]. exists err, post'.
      match goal with
      | |- context [(k + S ?i - 1)%nat] =>
          replace (k + S i - 1)%nat with (S k + i - 1)%nat by lia;
          replace (times - Z.of_nat k - Z.of_nat (S i) + 1)
            with (times - Z.of_nat (S k) - Z.of_nat i + 1) by lia
      end.
      split; reflexivity.
Qed.

(** X7.  When [time.sleep] accepts the delays, every log line is truthful:
    a line written after [j] calls reads
    "Will retry N time(s), caught exception: E. Sleeping for S sec(s)" with
    N the [times - j] attempts that are left, at least 1, and S the
    ["%d"] rendering of the delay of retry [j]; the sleep that follows at
    once lasts that delay, and at least one and at most N more calls are
    made after the line. *)
Theorem log_line_is_truthful (w : W) (pre post : list (event A)) (msg : string) :
  delays_accepted sleep_time backoff_factor (Z.to_nat (times - 1)) ->
  snd (retry times sleep_time backoff_factor err_class function w)
    = pre ++ LoggerInfo msg :: post ->
  exists (err : exn) (post' : list (event A)),
    msg = ("Will retry " ++ fmt_d (times - Z.of_nat (invocations pre))
             ++ " time(s), caught exception: " ++ str err
             ++ ". Sleeping for "
             ++ num_fmt_d (delay sleep_time backoff_factor (invocations pre))
             ++ " sec(s)")%string
    /\ post = TimeSleep (delay sleep_time backoff_factor (invocations pre)) :: post'
    /\ 1 <= times - Z.of_nat (invocations pre)
    /\ (1 <= invocations post)%nat
    /\ Z.of_nat (invocations post) <= times - Z.of_nat (invocations pre).
Proof.
  intros Hok.
  destruct (retry_shape function sleep_time backoff_factor err_class times w Hok)
    as (errs & -> & _ & _ & Hlen & _).
  cbn [snd]. intros Heq.
  pose proof (invocations_rounds times sleep_time backoff_factor errs
                [Invoked (attempt function (length errs) w)] 1) as Hinv.
  rewrite Heq in Hinv.
  assert (invocations (pre ++ LoggerInfo msg :: post)
          = (invocations pre + invocations post)%nat) as Hsplit.
  { unfold invocations. rewrite filter_app, length_app. reflexivity. }
  rewrite Hsplit in Hinv. cbn in Hinv.
  destruct (log_line_of_round _ _ _ _ _ _ Heq) as (Hle & err & post' & -> & ->).
  exists err, post'.
  replace (1 + invocations pre - 1)%nat with (invocations pre) by lia.
  replace (times - Z.of_nat 1 - Z.of_nat (invocations pre) + 1)
    with (times - Z.of_nat (invocations pre)) by lia.
  split; [reflexivity |]. split; [reflexivity |].
  unfold invocations in *. cbn [filter is_invoked length] in *. lia.
Qed.

End LogCountdown.

(** ** The further properties at concrete inputs *)

Lemma stops_at_first_escape_at_flaky :
  exists tr : list (event Z),
    retry 3 1 2 "Exception" (flaky 1) 0%nat
      = (attempt (flaky 1) 1 0%nat, after (flaky 1) 2 0%nat, tr)
    /\ invocations tr = 2%nat
    /\ log_events tr = 1%nat
    /\ sleeps tr = [2].
Proof.
  refine (stops_at_first_escape (flaky 1) 3 1 2 "Exception" 1 0%nat _ _ _ _).
  - intros j Hj. assert (j = 0%nat) as -> by lia. reflexivity.
  - apply int_delays_accepted; lia.
  - exact I.
  - cbn. lia.
Defined.

Lemma last_attempt_decides_at_flaky :
  exists tr : list (event Z),
    retry 3 1 2 "Exception" (flaky 2) 0%nat
      = (attempt (flaky 2) (Z.to_nat (3 - 1)) 0%nat, after (flaky 2) (Z.to_nat 3) 0%nat, tr)
    /\ Z.of_nat (invocations tr) = 3
    /\ Z.of_nat (log_events tr) = 3 - 1.
Proof.
  apply (last_attempt_decides (flaky 2) 3 1 2 "Exception" 0%nat).
  - lia.
  - apply int_delays_accepted; lia.
  - intros j Hj.
    assert (j = 0%nat \/ j = 1%nat) as [-> | ->] by (cbn in Hj; lia); reflexivity.
Defined.

Lemma default_backoff_sleeps_are_constant_at_3 :
  Forall (fun secs => secs = 5)
         (sleeps (snd (retry 3 5 1 "Exception" always_boom 0%nat)))
  /\ total_sleep (snd (retry 3 5 1 "Exception" always_boom 0%nat))
     = Z.of_nat (log_events (snd (retry 3 5 1 "Exception" always_boom 0%nat))) * 5
  /\ total_sleep (snd (retry 3 5 1 "Exception" always_boom 0%nat))
     <= (Z.max 1 3 - 1) * 5.
Proof.
  apply (default_backoff_sleeps_are_constant always_boom 3 5 "Exception" 0%nat).
  lia.
Defined.

Lemma stacked_retries_multiply_at_2_by_3 :
  exists (tr : list (event Z)) (journal : list (event Z)),
    retry 2 1 1 "Exception" (as_operation (retry 3 1 1 "IOError" always_boom)) (0%nat, [])
      = (attempt always_boom 5 0%nat, (after always_boom 6 0%nat, journal), tr)
    /\ invocations tr = 2%nat
    /\ invocations journal = 6%nat
    /\ log_events journal = 4%nat.
Proof.
  exact (stacked_retries_multiply always_boom 3 1 1 "IOError" 2 1 1 "Exception"
           (int_delays_accepted 1 1 _ ltac:(lia) ltac:(lia)) 0%nat
           (int_delays_accepted 1 1 _ ltac:(lia) ltac:(lia))
           (fun n => eq_refl) (fun n => eq_refl)).
Defined.

Lemma log_line_is_truthful_at_flaky :
  exists (err : exn) (post' : list (event Z)),
    "Will retry 2 time(s), caught exception: not yet. Sleeping for 2 sec(s)"%string
    = ("Will retry " ++ fmt_d (3 - 1) ++ " time(s), caught exception: " ++ str err
         ++ ". Sleeping for " ++ fmt_d 2 ++ " sec(s)")%string
    /\ [TimeSleep 2; Invoked (Return 2)] = TimeSleep 2 :: post'
    /\ 1 <= 3 - 1
    /\ (1 <= 1)%nat
    /\ 1 <= 3 - 1.
Proof.
  exact (log_line_is_truthful (flaky 1) 3 1 2 "Exception" 0%nat
           [Invoked (Raise (io_error "not yet"))]
           [TimeSleep 2; Invoked (Return 2)]
           "Will retry 2 time(s), caught exception: not yet. Sleeping for 2 sec(s)"
           (int_delays_accepted 1 2 _ ltac:(lia) ltac:(lia)) eq_refl).
Defined.

Lemma refused_sleep_ends_the_call_at_negative_delay :
  retry 3 (-1) 1 "Exception" always_boom 0%nat
  = (Raise invalid_argument, 1%nat,
     [Invoked (Raise (io_error "boom"));
      LoggerInfo
        "Will retry 2 time(s), caught exception: boom. Sleeping for -1 sec(s)"]).
Proof.
  exact (refused_sleep_ends_the_call always_boom 3 (-1) 1 "Exception" 0%nat 1%nat
           (io_error "boom") invalid_argument
           ltac:(lia) eq_refl eq_refl eq_refl).
Defined.
(** ** Which port [get_port] finds *)

Section Leftmost.

Lemma hd_error_flat_map {X Y : Type} (f : X -> list Y) (l : list X) (y : Y) :
  hd_error (flat_map f l) = Some y ->
  exists x, In x l /\ hd_error (f x) = Some y.
Proof.
  induction l as [| x l IH]; cbn [flat_map]; [discriminate |].
  destruct (f x) as [| y0 ys] eqn:Hfx.
  - cbn. intros H. destruct (IH H) as (x' & Hin & Hhd). exists x'. split; [right |]; assumption.
  - cbn. intros [= <-]. exists x. split; [left; reflexivity |]. rewrite Hfx. reflexivity.
Qed.

(** A greedy repetition tries the longest run first. *)
Lemma spans_head (cls : ascii -> bool) (hi : nat) :
  forall s, exists m rest tl,
    spans cls hi s = (m, rest) :: tl
    /\ s = m ++ rest
    /\ run_ends cls hi m rest
    /\ Forall (fun y => (length (fst y) <= length m)%nat) tl.
Proof.
  induction hi as [| hi IH]; intros s.
  - exists [], s, []. assert (spans cls 0 s = [([], s)]) as -> by (destruct s; reflexivity).
    repeat split; [left; reflexivity | constructor].
  - destruct s as [| c s].
    + exists [], [], []. repeat split; [right; exact I | constructor].
    + cbn [spans]. destruct (cls c) eqn:Hc.
      * destruct (IH s) as (m & rest & tl & -> & -> & Hend & Htl).
        exists (c :: m), rest, (map (fun mr => (c :: fst mr, snd mr)) tl ++ [([], c :: m ++ rest)]).
        split; [reflexivity |]. split; [reflexivity |]. split.
        -- destruct Hend as [Hlen | Hrest]; [left; cbn; lia | right; exact Hrest].
        -- apply Forall_app. split.
           ++ apply Forall_map. eapply Forall_impl; [| exact Htl].
              intros y Hy. cbn beta in Hy. cbn [fst length]. lia.
           ++ constructor; [cbn [fst length]; lia | constructor].
      * exists [], (c :: s), []. repeat split; [right; exact Hc | constructor].
Qed.

Lemma repeat_head (cls : ascii -> bool) (n lo hi : nat)
      (s rest : list ascii) (g m : groups) :
  hd_error (rmatch (Group n (Repeat cls lo hi)) s g) = Some (rest, m) ->
  exists port, m = (n, port) :: g /\ s = port ++ rest /\ run_ends cls hi port rest.
Proof.
  cbn [rmatch].
  destruct (spans_head cls hi s) as (m0 & rest0 & tl & -> & -> & Hend & Htl).
  cbn [filter fst].
  destruct (lo <=? length m0)%nat eqn:Hlo.
  - cbn. rewrite firstn_matched. intros [= <- <-]. exists m0. auto.
  - assert (filter (fun mr => (lo <=? length (fst mr))%nat) tl = []) as ->.
    { apply Nat.leb_gt in Hlo. induction Htl as [| y tl Hy _ IH]; [reflexivity |].
      cbn. destruct (lo <=? length (fst y))%nat eqn:Hy'; [| exact IH].
      apply Nat.leb_le in Hy'. lia. }
    cbn. discriminate.
Qed.

(** The first match the engine finds at a position has the longest run
    of digits that position allows. *)
Lemma port_pattern_head (t rest : list ascii) (m : groups) :
  hd_error (rmatch port_pattern t []) = Some (rest, m) ->
  exists port g, m = (2%nat, port) :: g /\ run_ends is_digit 5 port rest.
Proof.
  unfold port_pattern. cbn [rmatch]. intros H.
  apply hd_error_flat_map in H as ([s1 g1] & _ & H). cbn [fst snd] in H.
  apply hd_error_flat_map in H as ([s2 g2] & _ & H). cbn [fst snd] in H.
  apply hd_error_flat_map in H as ([s3 g3] & _ & H). cbn [fst snd] in H.
  apply repeat_head in H as (port & -> & _ & Hend). eauto.
Qed.

(** [search] answers with the first match at the leftmost position that
    has a match. *)
Lemma search_leftmost (r : regex) (s : list ascii) (m : groups) :
  search r s = Some m ->
  exists before t rest,
    s = before ++ t
    /\ hd_error (rmatch r t []) = Some (rest, m)
    /\ (forall before' t',
          s = before' ++ t' -> (length before' < length before)%nat ->
          rmatch r t' [] = []).
Proof.
  induction s as [| c s IH]; cbn [search].
  - destruct (rmatch r [] []) as [| [rest m0] ms] eqn:Hr; [discriminate |].
    intros [= <-]. exists [], [], rest. rewrite Hr.
    repeat split. intros before' t' _ Hlt. cbn in Hlt. lia.
  - destruct (rmatch r (c :: s) []) as [| [rest m0] ms] eqn:Hr.
    + intros Hs. destruct (IH Hs) as (before & t & rest & -> & Hhd & Hleft).
      exists (c :: before), t, rest. repeat split; [exact Hhd |].
      intros before' t' Heq Hlt. destruct before' as [| c' before'].
      * cbn in Heq. subst t'. exact Hr.
      * injection Heq as _ Heq. apply (Hleft before' t' Heq). cbn in Hlt. lia.
    + intros [= <-]. exists [], (c :: s), rest. rewrite Hr.
      repeat split. intros before' t' _ Hlt. cbn in Hlt. lia.
Qed.

Lemma host_has_no_colon (host p1 p2 : list ascii) :
  forallb host_char host = true -> host <> p1 ++ ":"%char :: p2.
Proof.
  intros Hall ->. rewrite forallb_app in Hall.
  apply andb_true_iff in Hall as [_ Hall]. cbn in Hall. discriminate.
Qed.

(** Neither a scheme nor a host holds a colon with a digit after it. *)
Lemma scheme_host_no_port_colon (scheme : string) (host : list ascii) :
  (scheme = "" \/ scheme = "http://" \/ scheme = "https://")%string ->
  forallb host_char host = true ->
  no_port_colon (list_ascii_of_string scheme ++ host).
Proof.
  intros Hs Hhost p1 d p2 Heq.
  destruct Hs as [-> | [-> | ->]]; cbn in Heq.
  - exfalso. exact (host_has_no_colon _ _ _ Hhost Heq).
  - do 7 (destruct p1 as [| ? p1];
          [cbn in Heq; first [discriminate | injection Heq as <-; reflexivity
                              | injection Heq; intros; subst; reflexivity] |
           injection Heq as <- Heq]).
    exfalso. exact (host_has_no_colon _ _ _ Hhost Heq).
  - do 8 (destruct p1 as [| ? p1];
          [cbn in Heq; first [discriminate | injection Heq as <-; reflexivity
                              | injection Heq; intros; subst; reflexivity] |
           injection Heq as <- Heq]).
    exfalso. exact (host_has_no_colon _ _ _ Hhost Heq).
Qed.

End Leftmost.

Section FirstPort.

Lemma hd_error_In {X : Type} (l : list X) (x : X) :
  hd_error l = Some x -> In x l.
Proof. destruct l; cbn; [discriminate | intros [= ->]; left; reflexivity]. Qed.

(** Two runs of digits that start at the same place and cannot be made
    longer are the same run. *)
Lemma maximal_runs_agree (port rest' ds rest : list ascii) :
  port ++ rest' = ds ++ rest ->
  forallb is_digit port = true -> forallb is_digit ds = true ->
  (length port <= 5)%nat -> (length ds <= 5)%nat ->
  run_ends is_digit 5 port rest' -> run_ends is_digit 5 ds rest ->
  port = ds.
Proof.
  intros Heq Hp Hd Hlp Hld Hep Hed.
  apply app_eq_app in Heq as (l & [[-> ->] | [-> ->]]).
  - destruct l as [| c l]; [apply app_nil_r |]. exfalso.
    rewrite forallb_app in Hp. apply andb_true_iff in Hp as [_ Hp].
    cbn in Hp. apply andb_true_iff in Hp as [Hc _].
    rewrite length_app in Hlp. cbn in Hlp.
    destruct Hed as [Hlen | Hrest]; [lia | cbn in Hrest; congruence].
  - destruct l as [| c l]; [symmetry; apply app_nil_r |]. exfalso.
    rewrite forallb_app in Hd. apply andb_true_iff in Hd as [_ Hd].
    cbn in Hd. apply andb_true_iff in Hd as [Hc _].
    rewrite length_app in Hld. cbn in Hld.
    destruct Hep as [Hlen | Hrest]; [lia | cbn in Hrest; congruence].
Qed.

(** A match that starts no later than the first colon with a digit after
    it has its colon there. *)
Lemma port_colon_is_first (before sh pre port rest' ds rest : list ascii) :
  before ++ sh ++ ":"%char :: port ++ rest' = pre ++ ":"%char :: ds ++ rest ->
  (length before <= length pre)%nat ->
  no_port_colon sh -> no_port_colon pre ->
  forallb is_digit port = true -> (1 <= length port)%nat ->
  forallb is_digit ds = true -> (1 <= length ds)%nat ->
  before ++ sh = pre /\ port ++ rest' = ds ++ rest.
Proof.
  intros Heq Hlen Hsh Hpre Hp Hlp Hd Hld.
  destruct port as [| p0 port]; [cbn in Hlp; lia |].
  destruct ds as [| d0 ds]; [cbn in Hld; lia |].
  cbn in Hp, Hd. apply andb_true_iff in Hp as [Hp0 _]. apply andb_true_iff in Hd as [Hd0 _].
  rewrite app_assoc in Heq.
  apply app_eq_app in Heq as (l & [[HX Hl] | [HX Hl]]).
  - (* the match's colon would come after the first port colon *)
    destruct l as [| c l].
    + rewrite app_nil_r in HX. cbn in Hl. injection Hl as Hc Hl.
      split; [exact HX | cbn; congruence].
    + exfalso. cbn in Hl. injection Hl as <- Hl.
      destruct l as [| c l]; cbn in Hl.
      * injection Hl as -> _. cbn in Hd0. discriminate.
      * injection Hl as <- Hl.
        apply app_eq_app in HX as (l3 & [[Hb Hs] | [Hb Hs]]).
        -- destruct l3 as [| c3 l3].
           ++ cbn in Hs. rewrite (Hsh [] d0 l (eq_sym Hs)) in Hd0. discriminate.
           ++ subst before. rewrite length_app in Hlen. cbn in Hlen. lia.
        -- rewrite (Hsh l3 d0 l Hs) in Hd0. discriminate.
  - (* the match's colon would come before the first port colon *)
    destruct l as [| c l].
    + rewrite app_nil_r in HX. cbn in Hl. injection Hl as Hc Hl.
      split; [symmetry; exact HX | cbn; congruence].
    + exfalso. cbn in Hl. injection Hl as <- Hl.
      destruct l as [| c l]; cbn in Hl.
      * injection Hl as -> _. cbn in Hp0. discriminate.
      * injection Hl as <- Hl.
        rewrite (Hpre (before ++ sh) p0 l HX) in Hp0. discriminate.
Qed.

(** The first match that [search] finds is at the first port colon, and
    its group 2 holds the digits there. *)
Lemma search_first_port (s pre ds rest : list ascii) :
  s = pre ++ ":"%char :: ds ++ rest ->
  no_port_colon pre ->
  forallb is_digit ds = true ->
  (1 <= length ds <= 5)%nat ->
  run_ends is_digit 5 ds rest ->
  exists m : groups, search port_pattern s = Some m /\ group m 2 = Some ds.
Proof.
  intros Ha Hpre Hds Hlen Hend.
  assert (In (rest, [(2%nat, ds); (1%nat, [])])
             (rmatch port_pattern (":"%char :: ds ++ rest) [])) as Hhere.
  { apply rmatch_iff. exists (":"%char :: ds). split; [reflexivity |].
    apply (port_pattern_matches "" [] ds); auto. }
  destruct (search port_pattern s) as [m |] eqn:Hs.
  - exists m. split; [reflexivity |].
    apply search_leftmost in Hs as (before & t & rest' & Hsplit & Hhd & Hleft).
    assert (length before <= length pre)%nat as Hle.
    { destruct (Nat.le_gt_cases (length before) (length pre)) as [H | H]; [exact H |].
      rewrite (Hleft pre _ Ha H) in Hhere. destruct Hhere. }
    destruct (port_pattern_head _ _ _ Hhd) as (port' & g' & Hm' & Hend').
    apply hd_error_In, rmatch_iff in Hhd as (txt & -> & Hm).
    apply port_pattern_match in Hm
      as (scheme & host & port & -> & Hscheme & Hhost & Hport & Hlp & ->).
    injection Hm' as <- <-.
    rewrite Ha in Hsplit. symmetry in Hsplit.
    rewrite <- !app_assoc in Hsplit.
    change ((":"%char :: port) ++ rest') with (":"%char :: port ++ rest') in Hsplit.
    rewrite (app_assoc (list_ascii_of_string scheme) host) in Hsplit.
    destruct (port_colon_is_first _ _ _ _ _ _ _ Hsplit Hle
                (scheme_host_no_port_colon _ _ Hscheme Hhost) Hpre
                Hport ltac:(lia) Hds ltac:(lia)) as [_ Hruns].
    assert (port = ds) as ->
        by (apply (maximal_runs_agree _ _ _ _ Hruns); auto; lia).
    reflexivity.
  - exfalso.
    apply (search_none _ _ Hs pre (":"%char :: ds) rest [(2%nat, ds); (1%nat, [])]).
    + rewrite Ha. reflexivity.
    + apply (port_pattern_matches "" [] ds); auto.
Qed.

(** Lines 58-59 on a match whose group 2 holds the digits [ds]. *)
Lemma get_port_of_match (a : string) (m : groups) (ds : list ascii) :
  search port_pattern (list_ascii_of_string a) = Some m ->
  group m 2 = Some ds ->
  forallb is_digit ds = true ->
  (1 <= length ds)%nat ->
  get_port (Some a) = Return (Some (decimal ds)).
Proof.
  intros Hs Hg Hds Hlen. unfold get_port. rewrite Hs, Hg.
  cbn [int]. rewrite Hds.
  destruct ds; [cbn in Hlen; lia | reflexivity].
Qed.

(** X8.  [get_port] reads the port at the first colon of the address that
    has a digit right after it: the digits from there on, five at most. *)
Theorem get_port_reads_first_port (a : string) (pre ds rest : list ascii) :
  list_ascii_of_string a = pre ++ ":"%char :: ds ++ rest ->
  no_port_colon pre ->
  forallb is_digit ds = true ->
  (1 <= length ds <= 5)%nat ->
  run_ends is_digit 5 ds rest ->
  get_port (Some a) = Return (Some (decimal ds)).
Proof.
  intros Ha Hpre Hds Hlen Hend.
  destruct (search_first_port _ pre ds rest Ha Hpre Hds Hlen Hend) as (m & Hs & Hg).
  apply (get_port_of_match a m ds Hs Hg Hds). lia.
Qed.

End FirstPort.

(** ** Addresses of the usual form *)

Section Urls.

Lemma list_ascii_of_string_app (s1 s2 : string) :
  list_ascii_of_string (s1 ++ s2) = list_ascii_of_string s1 ++ list_ascii_of_string s2.
Proof. induction s1 as [| c s1 IH]; cbn; [| rewrite IH]; reflexivity. Qed.

(** X9.  On an address made of an optional [http://] or [https://], a
    host of word characters and dots, a colon, 1 to 5 digits, and then
    anything that does not go on with a digit (a path, or nothing),
    [get_port] returns the number the digits spell. *)
Theorem get_port_of_host_port (scheme host port rest : string) :
  (scheme = "" \/ scheme = "http://" \/ scheme = "https://")%string ->
  forallb host_char (list_ascii_of_string host) = true ->
  forallb is_digit (list_ascii_of_string port) = true ->
  (1 <= length (list_ascii_of_string port) <= 5)%nat ->
  run_ends is_digit 5 (list_ascii_of_string port) (list_ascii_of_string rest) ->
  get_port (Some (scheme ++ host ++ ":" ++ port ++ rest)%string)
  = Return (Some (decimal (list_ascii_of_string port))).
Proof.
  intros Hscheme Hhost Hport Hlen Hend.
  assert (list_ascii_of_string (scheme ++ host ++ ":" ++ port ++ rest)
          = (list_ascii_of_string scheme ++ list_ascii_of_string host)
              ++ ":"%char :: list_ascii_of_string port ++ list_ascii_of_string rest)
    as Ha by (rewrite !list_ascii_of_string_app, <- app_assoc; reflexivity).
  destruct (search_first_port _ _ _ _ Ha
              (scheme_host_no_port_colon _ _ Hscheme Hhost) Hport Hlen Hend)
    as (m & Hs & Hg).
  apply (get_port_of_match _ m _ Hs Hg Hport). lia.
Qed.

End Urls.

(** ** The user of the secure datanode *)

Section HadoopClaims.
Variable compare_versions : string -> string -> Z.

(** [get_port] always returns. *)
Lemma get_port_returns (address : option string) :
  exists port : option Z,
    get_port address = Return port
    /\ (port = None
        \/ exists (a : string) (n : Z),
             address = Some a /\ has_host_port a /\ port = Some n /\ 0 <= n < 100000).
Proof.
  destruct address as [a |]; [| exists None; split; [reflexivity | left; reflexivity]].
  destruct (get_port_cases a) as [[_ Hnone] | Hsome].
  - exists None. split; [exact Hnone | left; reflexivity].
  - destruct Hsome as (m & before & scheme & host & port & rest
                       & _ & _ & Heq & Hscheme & Hhost & Hport & Hlen & Hget).
    exists (Some (decimal port)). split; [exact Hget |]. right.
    exists a, (decimal port). split; [reflexivity |]. split.
    + exists before, scheme, host, port, rest. auto.
    + split; [reflexivity |]. apply decimal_range; [exact Hport | lia].
Qed.

(** X10.  Lines 72-98 never fail, whatever the three addresses hold.  The
    datanode user they choose is [hdfs_user] or a pair of double quotes;
    before HDP 2.2 it is [hdfs_user]; from 2.2 on it is [hdfs_user]
    exactly when secure ports are in use, which takes security to be
    enabled. *)
Theorem hadoop_params_chooses_dn_user (c : site) :
  exists h : hadoop,
    hadoop_params compare_versions c = Return h
    /\ (hadoop_secure_dn_user h = hdfs_user c \/ hadoop_secure_dn_user h = two_quotes)
    /\ (stack_2_2 compare_versions c = false ->
        hadoop_secure_dn_user h = hdfs_user c /\ secure_dn_ports_are_in_use h = false)
    /\ (stack_2_2 compare_versions c = true ->
        hadoop_secure_dn_user h
        = if secure_dn_ports_are_in_use h then hdfs_user c else two_quotes)
    /\ (secure_dn_ports_are_in_use h = true ->
        stack_2_2 compare_versions c = true /\ security_enabled c = true).
Proof.
  unfold hadoop_params. fold (stack_2_2 compare_versions c).
  destruct (stack_2_2 compare_versions c) eqn:Hstack.
  - destruct (security_enabled c) eqn:Hsec; cbn [negb].
    + destruct (get_port_returns (dfs_dn_addr c)) as (p1 & -> & _).
      destruct (get_port_returns (dfs_dn_http_addr c)) as (p2 & -> & _).
      destruct (get_port_returns (dfs_dn_https_addr c)) as (p3 & -> & _).
      eexists. split; [reflexivity |]. cbn [hadoop_secure_dn_user secure_dn_ports_are_in_use].
      repeat split; try discriminate; auto.
      match goal with |- context [if ?b then hdfs_user c else _] => destruct b end; auto.
    + eexists. split; [reflexivity |]. cbn.
      repeat split; try discriminate; auto.
  - eexists. split; [reflexivity |]. cbn.
    repeat split; try discriminate; auto.
Qed.

(** X11.  On a secured HDP 2.2+ stack, a [dfs.datanode.address] whose
    first port is below 1024 makes the datanode run as [hdfs_user],
    whatever the HTTP policy and the two other addresses are. *)
Theorem privileged_dn_port_selects_hdfs_user
        (c : site) (a : string) (pre ds rest : list ascii) :
  stack_2_2 compare_versions c = true ->
  security_enabled c = true ->
  dfs_dn_addr c = Some a ->
  list_ascii_of_string a = pre ++ ":"%char :: ds ++ rest ->
  no_port_colon pre ->
  forallb is_digit ds = true ->
  (1 <= length ds <= 5)%nat ->
  run_ends is_digit 5 ds rest ->
  decimal ds < 1024 ->
  exists h : hadoop,
    hadoop_params compare_versions c = Return h
    /\ secure_dn_ports_are_in_use h = true
    /\ hadoop_secure_dn_user h = hdfs_user c.
Proof.
  intros Hstack Hsec Haddr Ha Hpre Hds Hlen Hend Hlow.
  unfold hadoop_params. fold (stack_2_2 compare_versions c). rewrite Hstack, Hsec, Haddr. cbn [negb].
  destruct (search_first_port _ pre ds rest Ha Hpre Hds Hlen Hend) as (m & Hs & Hg).
  rewrite (get_port_of_match a m ds Hs Hg Hds ltac:(lia)).
  destruct (get_port_returns (dfs_dn_http_addr c)) as (p2 & -> & _).
  destruct (get_port_returns (dfs_dn_https_addr c)) as (p3 & -> & _).
  assert (is_secure_port (Some (decimal ds)) = true) as ->
      by (cbn; apply Z.ltb_lt; exact Hlow).
  cbn [orb].
  eexists. split; [reflexivity |].
  destruct (policy_is (dfs_http_policy c) "HTTPS_ONLY");
    [| destruct (policy_is (dfs_http_policy c) "HTTP_AND_HTTPS")]; split; reflexivity.
Qed.

(** X12.  The address of a protocol the policy rules out is not looked
    at: under [HTTPS_ONLY] the HTTP address of the datanode can be anything,
    and under a policy that is neither [HTTPS_ONLY] nor [HTTP_AND_HTTPS]
    (so [HTTP_ONLY], or none) the HTTPS address can be anything. *)
Theorem unused_address_is_ignored (c : site) (other : option string) :
  (policy_is (dfs_http_policy c) "HTTPS_ONLY" = true ->
   hadoop_params compare_versions
     (mkSite (hdp_stack_version c) (security_enabled c) (hdfs_user c)
             (dfs_dn_addr c) other (dfs_dn_https_addr c) (dfs_http_policy c))
   = hadoop_params compare_versions c)
  /\ (policy_is (dfs_http_policy c) "HTTPS_ONLY" = false ->
      policy_is (dfs_http_policy c) "HTTP_AND_HTTPS" = false ->
      hadoop_params compare_versions
        (mkSite (hdp_stack_version c) (security_enabled c) (hdfs_user c)
                (dfs_dn_addr c) (dfs_dn_http_addr c) other (dfs_http_policy c))
      = hadoop_params compare_versions c).
Proof.
  split.
  - intros Hp. unfold hadoop_params. cbn [hdp_stack_version security_enabled hdfs_user
      dfs_dn_addr dfs_dn_http_addr dfs_dn_https_addr dfs_http_policy].
    rewrite Hp.
    destruct (get_port_returns (dfs_dn_addr c)) as (p1 & -> & _).
    destruct (get_port_returns (dfs_dn_http_addr c)) as (p2 & -> & _).
    destruct (get_port_returns other) as (p2' & -> & _).
    reflexivity.
  - intros Hp Hq. unfold hadoop_params. cbn [hdp_stack_version security_enabled hdfs_user
      dfs_dn_addr dfs_dn_http_addr dfs_dn_https_addr dfs_http_policy].
    rewrite Hp, Hq.
    destruct (get_port_returns (dfs_dn_addr c)) as (p1 & -> & _).
    destruct (get_port_returns (dfs_dn_https_addr c)) as (p3 & -> & _).
    destruct (get_port_returns other) as (p3' & -> & _).
    reflexivity.
Qed.

(** X13.  Addresses that are missing or hold no [host:port] never count
    as secure ports: on a secured HDP 2.2+ stack the datanode user is then
    the pair of double quotes. *)
Theorem no_port_means_no_secure_port (c : site) :
  (forall a, dfs_dn_addr c = Some a -> ~ has_host_port a) ->
  (forall a, dfs_dn_http_addr c = Some a -> ~ has_host_port a) ->
  (forall a, dfs_dn_https_addr c = Some a -> ~ has_host_port a) ->
  exists h : hadoop,
    hadoop_params compare_versions c = Return h
    /\ secure_dn_ports_are_in_use h = false
    /\ (stack_2_2 compare_versions c = true -> hadoop_secure_dn_user h = two_quotes).
Proof.
  intros H1 H2 H3.
  assert (forall address,
             (forall a, address = Some a -> ~ has_host_port a) ->
             get_port address = Return None) as Hnone.
  { intros address Hno.
    destruct (get_port_returns address) as (p & Hp & [-> | (a & n & -> & Hhas & _)]);
      [exact Hp | exfalso; exact (Hno a eq_refl Hhas)]. }
  unfold hadoop_params. fold (stack_2_2 compare_versions c).
  destruct (stack_2_2 compare_versions c).
  - destruct (security_enabled c); cbn [negb].
    + rewrite (Hnone _ H1), (Hnone _ H2), (Hnone _ H3). cbn [is_secure_port orb].
      eexists. split; [reflexivity |].
      destruct (policy_is (dfs_http_policy c) "HTTPS_ONLY");
        [| destruct (policy_is (dfs_http_policy c) "HTTP_AND_HTTPS")];
        split; reflexivity.
    + eexists. split; [reflexivity |]. split; reflexivity.
  - eexists. split; [reflexivity |]. split; [reflexivity | discriminate].
Qed.

End HadoopClaims.

(** ** The groups of a user *)

Section Groups.

Lemma assoc_filter {V : Type} (k u : string) (kvs : list (string * V)) :
  assoc u (filter (fun kv => negb (String.eqb (fst kv) k)) kvs)
  = if String.eqb k u then None else assoc u kvs.
Proof.
  induction kvs as [| [k' v] kvs IH]; cbn [filter assoc fst].
  - destruct (String.eqb k u); reflexivity.
  - destruct (String.eqb_spec k' k) as [-> | Hne]; cbn [negb assoc].
    + rewrite IH. destruct (String.eqb k u); reflexivity.
    + rewrite IH. destruct (String.eqb_spec k u) as [-> | Hku]; [| reflexivity].
      destruct (String.eqb_spec k' u) as [-> | _]; [contradiction | reflexivity].
Qed.

(** Reading a key after an assignment. *)
Lemma assoc_setitem {V : Type} (k u : string) (v : V) (d : defaultdict V) :
  assoc u (items (setitem k v d))
  = if String.eqb k u then Some v else assoc u (items d).
Proof.
  unfold setitem. cbn [items assoc]. rewrite assoc_filter.
  destruct (String.eqb k u); reflexivity.
Qed.

(** X14.  In [user_to_groups_dict] the last assignment to a name wins: a
    user is looked up as the Oozie user first (when there is an Oozie
    server), then as the Tez user (when Tez is configured), as the gmetad
    and the gmond user (when there is a Ganglia server) and as the smoke
    user; any other name gets [[user_group]].  Every user has exactly one
    group. *)
Theorem user_to_groups_last_assignment_wins (c : accounts) (u : string) :
  fst (getitem u (user_to_groups_dict c))
  = (if has_hosts (oozie_servers c) && String.eqb (oozie_user c) u
     then [proxyuser_group c]
     else if has_tez c && String.eqb (tez_user c) u
     then [proxyuser_group c]
     else if has_hosts (ganglia_server_hosts c) && String.eqb (gmetad_user c) u
     then [gmetad_user c]
     else if has_hosts (ganglia_server_hosts c) && String.eqb (gmond_user c) u
     then [gmond_user c]
     else if String.eqb (smoke_user c) u
     then [proxyuser_group c]
     else [user_group c])
  /\ length (fst (getitem u (user_to_groups_dict c))) = 1%nat.
Proof.
  assert (forall d : defaultdict (list string),
             fst (getitem u d)
             = match assoc u (items d) with
               | Some v => v
               | None => default_factory d
               end) as Hget.
  { intros d. unfold getitem. destruct (assoc u (items d)); reflexivity. }
  rewrite Hget. unfold user_to_groups_dict.
  destruct (has_hosts (oozie_servers c)), (has_tez c),
    (has_hosts (ganglia_server_hosts c));
    cbn [andb]; rewrite ?assoc_setitem;
    destruct (String.eqb (oozie_user c) u), (String.eqb (tez_user c) u),
      (String.eqb (gmetad_user c) u), (String.eqb (gmond_user c) u),
      (String.eqb (smoke_user c) u);
    split; reflexivity.
Qed.

End Groups.

(** ** The properties of params.py at concrete inputs *)

Lemma get_port_reads_first_port_at_datanode :
  get_port (Some "0.0.0.0:1019"%string)
  = Return (Some (decimal (list_ascii_of_string "1019"))).
Proof.
  apply (get_port_reads_first_port "0.0.0.0:1019"
           (list_ascii_of_string "0.0.0.0") (list_ascii_of_string "1019") []).
  - reflexivity.
  - apply (scheme_host_no_port_colon "" (list_ascii_of_string "0.0.0.0"));
      [left; reflexivity | reflexivity].
  - reflexivity.
  - cbn. lia.
  - right. exact I.
Defined.

Lemma get_port_of_host_port_at_https :
  get_port (Some ("https://" ++ "c6401.ambari.apache.org" ++ ":" ++ "50475" ++ "/jmx")%string)
  = Return (Some (decimal (list_ascii_of_string "50475"))).
Proof.
  apply (get_port_of_host_port "https://" "c6401.ambari.apache.org" "50475" "/jmx").
  - right. right. reflexivity.
  - reflexivity.
  - reflexivity.
  - cbn. lia.
  - left. reflexivity.
Defined.

Lemma privileged_dn_port_selects_hdfs_user_at_1019 :
  exists h : hadoop,
    hadoop_params (fun _ _ => 0)
      (mkSite "2.2.0.0" true "hdfs" (Some "0.0.0.0:1019"%string)
              (Some "0.0.0.0:50075"%string) None (Some "HTTP_ONLY"%string))
    = Return h
    /\ secure_dn_ports_are_in_use h = true
    /\ hadoop_secure_dn_user h = "hdfs"%string.
Proof.
  apply (privileged_dn_port_selects_hdfs_user (fun _ _ => 0)
           (mkSite "2.2.0.0" true "hdfs" (Some "0.0.0.0:1019"%string)
                   (Some "0.0.0.0:50075"%string) None (Some "HTTP_ONLY"%string))
           "0.0.0.0:1019"
           (list_ascii_of_string "0.0.0.0") (list_ascii_of_string "1019") []).
  - reflexivity.
  - reflexivity.
  - reflexivity.
  - reflexivity.
  - apply (scheme_host_no_port_colon "" (list_ascii_of_string "0.0.0.0"));
      [left; reflexivity | reflexivity].
  - reflexivity.
  - cbn. lia.
  - right. exact I.
  - reflexivity.
Defined.

Lemma no_port_means_no_secure_port_at_unset :
  exists h : hadoop,
    hadoop_params (fun _ _ => 0)
      (mkSite "2.2.0.0" true "hdfs" None None None None)
    = Return h
    /\ secure_dn_ports_are_in_use h = false
    /\ (stack_2_2 (fun _ _ => 0) (mkSite "2.2.0.0" true "hdfs" None None None None) = true ->
        hadoop_secure_dn_user h = two_quotes).
Proof.
  apply (no_port_means_no_secure_port (fun _ _ => 0)
           (mkSite "2.2.0.0" true "hdfs" None None None None));
    intros a Ha; discriminate Ha.
Defined.
